(** * SmartBridge: the session manager of lutron-leap-js

    A shallow embedding of [src/SmartBridge.ts].  The class owns a LEAP client
    (the transport), a single timer handle [pingLooper] that drives the ping
    loop, and relays the client's notifications.  The JavaScript runtime the
    class relies on (the timer table behind [setTimeout]/[clearTimeout], the
    promise built by [Promise.race], the promise built by [Promise.all]) is
    modelled explicitly, and every call the class makes on its collaborators
    is recorded in an effect log.  What the client emits reaches the class
    through the listeners the class has put on it. *)

From stdpp Require Import base option list gmap strings.
From Stdlib Require Import ZArith QArith Qround Lia Lqa.

Local Close Scope Q_scope.
Local Open Scope string_scope.
Local Open Scope list_scope.

(** ** Numbers

    A JavaScript [number] is an IEEE double.  Every finite double denotes a
    rational, and [Math.round] is specified on that denotation, so a finite
    number is modelled by the rational it denotes (the two zeros are
    identified); the three values that are not finite are kept apart. *)

Inductive number : Type :=
  | Finite (q : Q)
  | NaN
  | PosInfinity
  | NegInfinity.

(** [Math.round(x)]: the integral number closest to [x], the one closer to
    +Infinity when two are equally close; NaN and the infinities are
    returned as they are. *)
Definition Math_round (x : number) : number :=
  match x with
  | Finite q => Finite (inject_Z (Qfloor (q + (1 # 2))%Q))
  | NaN => NaN
  | PosInfinity => PosInfinity
  | NegInfinity => NegInfinity
  end.

(** ** Message bodies ([MessageBodyTypes], [Messages]) *)

(** Modelled from the spec: [MessageBodyTypes.ts] and [Messages.ts] are not
    under src/; the records below carry the fields [SmartBridge.ts] reads, and
    a body is an object on which each discriminant ([Device], [Devices],
    [ZoneStatus], [ButtonGroup], [Button]) is present or absent. *)
Record Href : Type := { href : string }.

Record FirmwareT : Type := { DisplayName : string }.
Record FirmwareImageT : Type := { Firmware : FirmwareT }.

Record Device : Type := {
  device_href : string;
  FullyQualifiedName : list string;
  SerialNumber : string;
  ModelNumber : string;
  FirmwareImage : FirmwareImageT;
  ButtonGroups : list Href;
  LocalZones : list Href
}.

Record ZoneStatus : Type := { Tilt : number }.

Record ButtonGroup : Type := {
  buttongroup_href : string;
  Buttons : list Href
}.

Record Button : Type := {
  button_href : string;
  button_Name : string
}.

Record BodyType : Type := {
  body_Device : option Device;
  body_Devices : option (list Device);
  body_ZoneStatus : option ZoneStatus;
  body_ButtonGroup : option ButtonGroup;
  body_Button : option Button
}.

(** A body on which no discriminant is present. *)
Definition empty_body : BodyType :=
  {| body_Device := None; body_Devices := None; body_ZoneStatus := None;
     body_ButtonGroup := None; body_Button := None |}.

(** [Body] is optional on a [Response]: the source reads it as [raw.Body!]. *)
Record Response : Type := { Body : option BodyType }.

Inductive RequestType : Type := ReadRequest | CreateRequest.

Record TiltParametersT : Type := { tp_Tilt : number }.
Record CommandT : Type := {
  CommandType : string;
  TiltParameters : TiltParametersT
}.
Record RequestBody : Type := { Command : CommandT }.

(** One call of [client.request(requestType, url, body?)]. *)
Record Request : Type := {
  req_type : RequestType;
  req_url : string;
  req_body : option RequestBody
}.

(** ** Failures

    [Error msg] is what the source raises itself with [throw new Error(msg)];
    [TypeError msg] is what the runtime raises when a property of [undefined]
    is read; [TransportError] is a rejection of [client.request];
    [Reason msg] is a promise rejected with a plain string. *)
Inductive Err : Type :=
  | Error (msg : string)
  | TypeError (msg : string)
  | TransportError (msg : string)
  | Reason (msg : string).

(** ** The session and the runtime around it *)

Definition PING_INTERVAL_MS : Z := 60000.
Definition PING_TIMEOUT_MS : Z := 1000.

Inductive ClientEvent : Type := unsolicited | disconnected.

(** The methods bound as listeners in the constructor. *)
Inductive Handler : Type := _handleUnsolicited_bound | _handleDisconnect_bound.

(** What [SmartBridge] emits to its own subscribers ([SmartBridgeEvents]). *)
Inductive Notification : Type :=
  | EmitUnsolicited (id : string) (response : Response)
  | EmitDisconnected.

(** Calls made on the collaborators, in program order. *)
Inductive Effect : Type :=
  | ClientOn (ev : ClientEvent) (h : Handler)
  | ClientRequest (r : Request)
  | ClientClose
  | Emit (n : Notification).

(** The two arrow functions handed to [setTimeout]:
    the one of [_setPingTimeout], and the one of [pingLoop], which rejects the
    [timeout] promise of the race it was created for. *)
Inductive Callback : Type :=
  | PingTimeoutCallback
  | RaceTimeoutCallback (race : nat).

Record Timer : Type := { delay : Z; callback : Callback }.

(** The promise of one [Promise.race([this.ping(), timeout])]:
    [settled] once either contender has settled it, [ping_done] once the
    [ping()] request has resolved or rejected. *)
Record Race : Type := { settled : bool; ping_done : bool }.

(** The object ([bridgeID], [pingLooper]) with the runtime tables it acts on:
    the pending timers keyed by handle, the next handle [setTimeout] hands
    out, the races keyed by the handle of their timeout timer, and the log. *)
Record SmartBridge : Type := {
  bridgeID : string;
  pingLooper : nat;
  timers : gmap nat Timer;
  next_handle : nat;
  races : gmap nat Race;
  effects : list Effect
}.

Definition with_timers (f : gmap nat Timer → gmap nat Timer) (b : SmartBridge) : SmartBridge :=
  {| bridgeID := bridgeID b; pingLooper := pingLooper b; timers := f (timers b);
     next_handle := next_handle b; races := races b; effects := effects b |}.

Definition with_races (f : gmap nat Race → gmap nat Race) (b : SmartBridge) : SmartBridge :=
  {| bridgeID := bridgeID b; pingLooper := pingLooper b; timers := timers b;
     next_handle := next_handle b; races := f (races b); effects := effects b |}.

Definition with_pingLooper (h : nat) (b : SmartBridge) : SmartBridge :=
  {| bridgeID := bridgeID b; pingLooper := h; timers := timers b;
     next_handle := next_handle b; races := races b; effects := effects b |}.

(** Appends one call to the log. *)
Definition perform (e : Effect) (b : SmartBridge) : SmartBridge :=
  {| bridgeID := bridgeID b; pingLooper := pingLooper b; timers := timers b;
     next_handle := next_handle b; races := races b; effects := effects b ++ [e] |}.

(** [setTimeout(cb, ms)]: registers a timer under a fresh handle and returns
    the handle. *)
Definition setTimeout (cb : Callback) (ms : Z) (b : SmartBridge) : nat * SmartBridge :=
  let h := next_handle b in
  (h, {| bridgeID := bridgeID b; pingLooper := pingLooper b;
         timers := <[h := {| delay := ms; callback := cb |}]> (timers b);
         next_handle := S h; races := races b; effects := effects b |}).

(** [clearTimeout(h)]: the timer no longer fires; no effect on a handle that
    is not pending. *)
Definition clearTimeout (h : nat) (b : SmartBridge) : SmartBridge :=
  with_timers (delete h) b.

Definition ping_request : Request :=
  {| req_type := ReadRequest; req_url := "/server/1/status/ping"; req_body := None |}.

(** [_setPingTimeout] *)
Definition _setPingTimeout (b : SmartBridge) : SmartBridge :=
  let '(h, b') := setTimeout PingTimeoutCallback PING_INTERVAL_MS b in
  with_pingLooper h b'.

(** [pingLoop]: the executor of [timeout] runs first and arms the timeout
    timer, then [this.ping()] issues the request, then the race is built. *)
Definition pingLoop (b : SmartBridge) : SmartBridge :=
  let '(h, b1) := setTimeout (RaceTimeoutCallback b.(next_handle)) PING_TIMEOUT_MS b in
  let b2 := perform (ClientRequest ping_request) b1 in
  with_races <[h := {| settled := false; ping_done := false |}]> b2.

(** The [.then] handler of the race. *)
Definition race_then (b : SmartBridge) : SmartBridge :=
  _setPingTimeout (clearTimeout (pingLooper b) b).

(** The [.catch] handler of the race ([logDebug] leaves no trace here). *)
Definition race_catch (b : SmartBridge) : SmartBridge :=
  perform ClientClose b.

(** [close] *)
Definition close (b : SmartBridge) : SmartBridge :=
  perform ClientClose (clearTimeout (pingLooper b) b).

(** [_handleDisconnect] *)
Definition _handleDisconnect (b : SmartBridge) : SmartBridge := close b.

(** [_handleUnsolicited] *)
Definition _handleUnsolicited (response : Response) (b : SmartBridge) : SmartBridge :=
  perform (Emit (EmitUnsolicited (bridgeID b) response)) b.

(** The constructor. *)
Definition new_SmartBridge (id : string) : SmartBridge :=
  _setPingTimeout
    {| bridgeID := id; pingLooper := 0; timers := ∅; next_handle := 0; races := ∅;
       effects := [ClientOn unsolicited _handleUnsolicited_bound;
                   ClientOn disconnected _handleDisconnect_bound] |}.

(** What the environment can do to a session. *)
Inductive Event : Type :=
  | TimerFires (h : nat)
  | PingResolves (race : nat) (response : Response)
  | PingRejects (race : nat) (e : Err)
  | ClientUnsolicited (response : Response)
  | ClientDisconnected
  | CallClose.

(** Settles race [r] unless it is settled already and runs the handler
    attached to the outcome. *)
Definition settle_race (r : nat) (fulfilled : bool) (b : SmartBridge) : SmartBridge :=
  match races b !! r with
  | Some rc =>
      if settled rc then b
      else
        let b' := with_races <[r := {| settled := true; ping_done := ping_done rc |}]> b in
        if fulfilled then race_then b' else race_catch b'
  | None => b
  end.

(** The [ping()] request of race [r] completes; a request completes once. *)
Definition ping_completes (r : nat) (fulfilled : bool) (b : SmartBridge) : SmartBridge :=
  match races b !! r with
  | Some rc =>
      if ping_done rc then b
      else
        settle_race r fulfilled
          (with_races <[r := {| settled := settled rc; ping_done := true |}]> b)
  | None => b
  end.

Definition run_callback (cb : Callback) (b : SmartBridge) : SmartBridge :=
  match cb with
  | PingTimeoutCallback => pingLoop (clearTimeout (pingLooper b) b)
  | RaceTimeoutCallback r => settle_race r false b
  end.

Definition ClientEvent_eqb (ev ev' : ClientEvent) : bool :=
  match ev, ev' with
  | unsolicited, unsolicited | disconnected, disconnected => true
  | _, _ => false
  end.

(** The listeners the client holds for [ev]: the handlers handed to
    [client.on(ev, _)], in the order of the calls.  The class never takes a
    listener off, so the calls logged so far determine them. *)
Definition client_listeners (ev : ClientEvent) (b : SmartBridge) : list Handler :=
  omap (λ e, match e with
             | ClientOn ev' h => if ClientEvent_eqb ev' ev then Some h else None
             | _ => None
             end) (effects b).

(** The client calls one listener with what it emitted: a response with
    [unsolicited], nothing with [disconnected].  [_handleUnsolicited] takes a
    response; the typed emitter admits it for [unsolicited] only, and nothing
    is modelled for a call without one. *)
Definition invoke (h : Handler) (response : option Response) (b : SmartBridge) : SmartBridge :=
  match h with
  | _handleUnsolicited_bound =>
      match response with
      | Some r => _handleUnsolicited r b
      | None => b
      end
  | _handleDisconnect_bound => _handleDisconnect b
  end.

(** The client emits [ev]: the listeners it holds for [ev] when the
    emission starts are called one after the other, in their order. *)
Definition client_emit (ev : ClientEvent) (response : option Response)
    (b : SmartBridge) : SmartBridge :=
  foldl (λ b' h, invoke h response b') b (client_listeners ev b).

Definition step (b : SmartBridge) (ev : Event) : SmartBridge :=
  match ev with
  | TimerFires h =>
      match timers b !! h with
      | Some t => run_callback (callback t) (with_timers (delete h) b)
      | None => b
      end
  | PingResolves r _ => ping_completes r true b
  | PingRejects r _ => ping_completes r false b
  | ClientUnsolicited response => client_emit unsolicited (Some response) b
  | ClientDisconnected => client_emit disconnected None b
  | CallClose => close b
  end.

Definition run (b : SmartBridge) (evs : list Event) : SmartBridge :=
  foldl step b evs.

Definition is_ClientClose (e : Effect) : bool :=
  match e with ClientClose => true | _ => false end.

Definition is_EmitDisconnected (e : Effect) : bool :=
  match e with Emit EmitDisconnected => true | _ => false end.

(** How often the transport's [close] has been invoked. *)
Definition client_closes (b : SmartBridge) : nat :=
  length (List.filter is_ClientClose (effects b)).

(** How often [disconnected] has been emitted to the subscribers. *)
Definition disconnected_emitted (b : SmartBridge) : nat :=
  length (List.filter is_EmitDisconnected (effects b)).

(** A response whose body carries none of the discriminants. *)
Definition some_response : Response := {| Body := Some empty_body |}.

(** The unsolicited notifications emitted so far, oldest first. *)
Definition unsolicited_emitted (b : SmartBridge) : list (string * Response) :=
  omap (λ e, match e with
             | Emit (EmitUnsolicited id response) => Some (id, response)
             | _ => None
             end) (effects b).

(** The unsolicited messages the transport delivers in [evs], oldest first. *)
Definition unsolicited_delivered (evs : list Event) : list Response :=
  omap (λ ev, match ev with ClientUnsolicited response => Some response | _ => None end) evs.

(** The events that ask for a teardown: the caller's [close()] and the
    transport's [disconnected]. *)
Definition is_close_trigger (ev : Event) : bool :=
  match ev with
  | CallClose | ClientDisconnected => true
  | _ => false
  end.

(** ** Promises and the command layer *)

(** The state a promise ends up in; [Pending] is a promise that never
    settles. *)
Inductive Promise (A : Type) : Type :=
  | Fulfilled (a : A)
  | Rejected (e : Err)
  | Pending.
Arguments Fulfilled {A} a.
Arguments Rejected {A} e.
Arguments Pending {A}.

(** [p.then(f)], where [f] returns a value or throws. *)
Definition promise_then {A B} (p : Promise A) (f : A → Promise B) : Promise B :=
  match p with
  | Fulfilled a => f a
  | Rejected e => Rejected e
  | Pending => Pending
  end.

(** Modelled from the spec: [LeapClient.ts] is not under src/; by the
    transport contract a request is answered by one response, fails with a
    transport error, or never resolves. *)
Record LeapClient : Type := { request : Request → Promise Response }.

(** The body of an [async] method: it adds the requests it issues to the
    log of calls to [client.request] and ends in the state of the promise
    the method returns. *)
Definition Async (A : Type) : Type := list Request → list Request * Promise A.

#[global] Instance Async_ret : MRet Async := λ A a log, (log, Fulfilled a).

#[global] Instance Async_bind : MBind Async := λ A B k m log,
  match m log with
  | (log', Fulfilled a) => k a log'
  | (log', Rejected e) => (log', Rejected e)
  | (log', Pending) => (log', Pending)
  end.

Definition throw {A} (e : Err) : Async A := λ log, (log, Rejected e).

(** [await p] *)
Definition await {A} (p : Promise A) : Async A := λ log, (log, p).

(** [this.client.request(...)]: the call is made, its promise is returned. *)
Definition client_request (client : LeapClient) (rt : RequestType) (url : string)
    (body : option RequestBody) : Async (Promise Response) :=
  λ log,
    let r := {| req_type := rt; req_url := url; req_body := body |} in
    (log ++ [r], Fulfilled (request client r)).

(** Reading property [prop] of [raw.Body!]: the [!] is erased at run time,
    so a response without body raises the run-time TypeError. *)
Definition read_Body (raw : Response) (prop : string) : Promise BodyType :=
  match Body raw with
  | Some body => Fulfilled body
  | None => Rejected (TypeError ("Cannot read properties of undefined (reading '" +:+ prop +:+ "')"))
  end.

(** [refs[0].href] *)
Definition first_href (refs : list Href) : Promise string :=
  match refs with
  | ref :: _ => Fulfilled (href ref)
  | [] => Rejected (TypeError "Cannot read properties of undefined (reading 'href')")
  end.

(** [Array.prototype.join]: the separator goes before every element but
    the first. *)
Definition Array_join (sep : string) (l : list string) : string :=
  snd (foldl (λ '(k, R) element,
                (S k, (match k with O => R | S _ => R +:+ sep end) +:+ element))
             (0, "") l).

Record BridgeInfo : Type := {
  firmwareRevision : string;
  manufacturer : string;
  model : string;
  name : string;
  serialNumber : string
}.

(** [ping] *)
Definition ping (client : LeapClient) : Async Response :=
  p ← client_request client ReadRequest "/server/1/status/ping" None;
  await p.

(** [getBridgeInfo] *)
Definition getBridgeInfo (client : LeapClient) : Async BridgeInfo :=
  p ← client_request client ReadRequest "/device/1" None;
  raw ← await p;
  body ← await (read_Body raw "Device");
  match body_Device body with
  | Some device =>
      mret {| firmwareRevision := DisplayName (Firmware (FirmwareImage device));
              manufacturer := "Lutron Electronics Co., Inc";
              model := ModelNumber device;
              name := Array_join " " (FullyQualifiedName device);
              serialNumber := SerialNumber device |}
  | None => throw (Error "Got bad response to bridge info request")
  end.

(** [getDeviceInfo] *)
Definition getDeviceInfo (client : LeapClient) : Async (list Device) :=
  p ← client_request client ReadRequest "/device" None;
  raw ← await p;
  body ← await (read_Body raw "Devices");
  match body_Devices body with
  | Some devices => mret devices
  | None => throw (Error "got bad response to all device list request")
  end.

Definition GoToTilt (tilt : number) : RequestBody :=
  {| Command := {| CommandType := "GoToTilt";
                   TiltParameters := {| tp_Tilt := tilt |} |} |}.

(** [setBlindsTilt]: the request is issued and not awaited. *)
Definition setBlindsTilt (client : LeapClient) (device : Device) (value : number) : Async unit :=
  zone ← await (first_href (LocalZones device));
  let href := zone +:+ "/commandprocessor" in
  _ ← client_request client CreateRequest href (Some (GoToTilt (Math_round value)));
  mret ().

(** [readBlindsTilt] *)
Definition readBlindsTilt (client : LeapClient) (device : Device) : Async number :=
  zone ← await (first_href (LocalZones device));
  p ← client_request client ReadRequest (zone +:+ "/status") None;
  resp ← await p;
  body ← await (read_Body resp "ZoneStatus");
  match body_ZoneStatus body with
  | Some status => mret (Tilt status)
  | None => throw (TypeError "Cannot read properties of undefined (reading 'Tilt')")
  end.

(** [getButtonGroupFromDevice] *)
Definition getButtonGroupFromDevice (client : LeapClient) (device : Device) : Async ButtonGroup :=
  group ← await (first_href (ButtonGroups device));
  p ← client_request client ReadRequest group None;
  raw ← await p;
  body ← await (read_Body raw "ButtonGroup");
  match body_ButtonGroup body with
  | Some bgroup => mret bgroup
  | None => throw (Error "unable to get button group")
  end.

(** The handler [getButtonsFromGroup] chains on every request. *)
Definition button_of_response (resp : Response) : Promise Button :=
  promise_then (read_Body resp "Button") (λ body,
    match body_Button body with
    | Some button => Fulfilled button
    | None => Rejected (Error "unable to get button")
    end).

(** The loop of [getButtonsFromGroup]: one request per reference, its
    promise pushed on [buttons]. *)
Fixpoint push_button_requests (client : LeapClient) (refs : list Href)
    (buttons : list (Promise Button)) : Async (list (Promise Button)) :=
  match refs with
  | [] => mret buttons
  | button :: rest =>
      p ← client_request client ReadRequest (href button) None;
      push_button_requests client rest (buttons ++ [promise_then p button_of_response])
  end.

(** [Promise.all]: a slot per element, empty until the element is
    fulfilled, the count of the elements still awaited, and the state of the
    promise returned. *)
Record AllState (A : Type) : Type := {
  values : list (option A);
  remainingElementsCount : nat;
  outcome : Promise (list A)
}.
Arguments values {A} _.
Arguments remainingElementsCount {A} _.
Arguments outcome {A} _.

Definition Promise_all_start {A} (ps : list (Promise A)) : AllState A :=
  {| values := replicate (length ps) None;
     remainingElementsCount := length ps;
     outcome := match ps with [] => Fulfilled [] | _ :: _ => Pending end |}.

(** Element [i] settles.  Once the returned promise is settled nothing
    changes it; an element settles once; a fulfilled element fills its own
    slot, and the last one to do so fulfils the promise with the slots in
    order; a rejected element rejects the promise. *)
Definition Promise_all_settle {A} (ps : list (Promise A)) (st : AllState A) (i : nat) : AllState A :=
  match outcome st with
  | Pending =>
      match ps !! i with
      | Some (Fulfilled x) =>
          match values st !! i with
          | Some None =>
              let values' := <[i := Some x]> (values st) in
              let remaining := remainingElementsCount st - 1 in
              {| values := values';
                 remainingElementsCount := remaining;
                 outcome := match remaining with
                            | O => Fulfilled (omap id values')
                            | S _ => Pending
                            end |}
          | _ => st
          end
      | Some (Rejected e) =>
          {| values := values st;
             remainingElementsCount := remainingElementsCount st;
             outcome := Rejected e |}
      | _ => st
      end
  | _ => st
  end.

(** [Promise.all(ps)] when the elements settle in the order [order]
    (indices into [ps]; an element that is [Pending] never settles). *)
Definition Promise_all {A} (ps : list (Promise A)) (order : list nat) : Promise (list A) :=
  outcome (foldl (Promise_all_settle ps) (Promise_all_start ps) order).

(** [getButtonsFromGroup], the requests completing in the order [order]. *)
Definition getButtonsFromGroup (client : LeapClient) (bgroup : ButtonGroup)
    (order : list nat) : Async (list Button) :=
  buttons ← push_button_requests client (Buttons bgroup) [];
  await (Promise_all buttons order).

(** The client holds the listeners the constructor gives it: one handler
    for [unsolicited] and one for [disconnected]. *)
Definition wired (b : SmartBridge) : Prop :=
  client_listeners unsolicited b = [_handleUnsolicited_bound]
  ∧ client_listeners disconnected b = [_handleDisconnect_bound].

(** A session is reachable when the constructor followed by some events
    produces it. *)
Definition reachable (b : SmartBridge) : Prop :=
  ∃ id evs, b = run (new_SmartBridge id) evs.

(** No timer of [_setPingTimeout] is pending. *)
Definition no_ping_timer (b : SmartBridge) : Prop :=
  map_Forall (λ _ t, callback t ≠ PingTimeoutCallback) (timers b).

(** No race is waiting for its outcome. *)
Definition no_open_race (b : SmartBridge) : Prop :=
  map_Forall (λ _ rc, settled rc = true) (races b).

(** The ping loop has stopped: nothing is pending that could arm it again. *)
Definition ping_loop_stopped (b : SmartBridge) : Prop :=
  no_ping_timer b ∧ no_open_race b.

(** What holds of every reachable session. *)
Record Inv (b : SmartBridge) : Prop := {
  inv_timer_handles : ∀ h t, timers b !! h = Some t → h < next_handle b;
  inv_race_handles : ∀ r rc, races b !! r = Some rc → r < next_handle b;
  inv_pingLooper_handle : pingLooper b < next_handle b;
  inv_pingLooper_no_race : races b !! pingLooper b = None;
  inv_ping_timer : ∀ h t,
    timers b !! h = Some t → callback t = PingTimeoutCallback →
    h = pingLooper b ∧ delay t = PING_INTERVAL_MS;
  inv_race_timer : ∀ h t r,
    timers b !! h = Some t → callback t = RaceTimeoutCallback r →
    h = r ∧ delay t = PING_TIMEOUT_MS ∧ is_Some (races b !! r);
  inv_deadline : ∀ r rc,
    races b !! r = Some rc → settled rc = false →
    timers b !! r = Some {| delay := PING_TIMEOUT_MS; callback := RaceTimeoutCallback r |};
  inv_one_race : ∀ r rc r' rc',
    races b !! r = Some rc → settled rc = false →
    races b !! r' = Some rc' → settled rc' = false → r = r';
  inv_race_excludes_timer : ∀ r rc,
    races b !! r = Some rc → settled rc = false → no_ping_timer b
}.

(** ** Predicates and sample data used in the statements *)

(** Whether the timeout timer of race [r] has been cancelled. *)
Definition timeout_cancelled (b : SmartBridge) (r : nat) : Prop :=
  timers b !! r = None.

(** [client.request('ReadRequest', url)] *)
Definition read (url : string) : Request :=
  {| req_type := ReadRequest; req_url := url; req_body := None |}.

(** A shade with one zone. *)
Definition living_room_shade : Device :=
  {| device_href := "/device/1";
     FullyQualifiedName := ["Living Room"; "Shade"];
     SerialNumber := "01234567";
     ModelNumber := "L-BDG2-WH";
     FirmwareImage := {| Firmware := {| DisplayName := "08.08.17f000" |} |};
     ButtonGroups := [];
     LocalZones := [ {| href := "/zone/1" |} ] |}.

Definition OneDeviceDefinition (device : Device) : BodyType :=
  {| body_Device := Some device; body_Devices := None; body_ZoneStatus := None;
     body_ButtonGroup := None; body_Button := None |}.

Definition one_device (device : Device) : Response :=
  {| Body := Some (OneDeviceDefinition device) |}.

(** A transport that answers every request with [response]. *)
Definition always (response : Response) : LeapClient :=
  {| request := λ _, Fulfilled response |}.

(** [n] is the integer nearest to [q], the upper one of the two when [q] is
    half-way between two integers. *)
Definition nearest_integer (q : Q) (n : Z) : Prop :=
  (inject_Z n - (1 # 2) <= q)%Q ∧ (q < inject_Z n + (1 # 2))%Q.

(** The promise [getButtonsFromGroup] pushes for one reference. *)
Definition button_promise (client : LeapClient) (ref : Href) : Promise Button :=
  promise_then (request client (read (href ref))) button_of_response.

(** The request for [ref] is answered by a body that carries [button]. *)
Definition resolves_to (client : LeapClient) (ref : Href) (button : Button) : Prop :=
  ∃ body, request client (read (href ref)) = Fulfilled {| Body := Some body |}
          ∧ body_Button body = Some button.

(** The number of slots of [Promise.all] still empty. *)
Definition empty_slots {A} (vs : list (option A)) : nat :=
  length (List.filter (λ v, match v with None => true | Some _ => false end) vs).

Definition button_101 : Button := {| button_href := "/button/101"; button_Name := "Button 1" |}.
Definition button_102 : Button := {| button_href := "/button/102"; button_Name := "Button 2" |}.
Definition button_103 : Button := {| button_href := "/button/103"; button_Name := "Button 3" |}.

Definition OneButtonDefinition (button : Button) : BodyType :=
  {| body_Device := None; body_Devices := None; body_ZoneStatus := None;
     body_ButtonGroup := None; body_Button := Some button |}.

Definition keypad : ButtonGroup :=
  {| buttongroup_href := "/buttongroup/2";
     Buttons := [ {| href := "/button/101" |}; {| href := "/button/102" |};
                  {| href := "/button/103" |} ] |}.

(** A transport that knows the three buttons of [keypad]; with [broken] it
    fails the read of the second one. *)
Definition keypad_client (broken : bool) : LeapClient :=
  {| request := λ r,
       if String.eqb (req_url r) "/button/101"
       then Fulfilled {| Body := Some (OneButtonDefinition button_101) |}
       else if String.eqb (req_url r) "/button/102"
       then (if broken then Rejected (TransportError "request failed")
             else Fulfilled {| Body := Some (OneButtonDefinition button_102) |})
       else if String.eqb (req_url r) "/button/103"
       then Fulfilled {| Body := Some (OneButtonDefinition button_103) |}
       else Fulfilled {| Body := Some empty_body |} |}.

(** What holds of the state of [Promise.all] when every element is
    fulfilled, [xs] being the values of the elements. *)
Record all_ok {A} (xs : list A) (st : AllState A) : Prop := {
  ok_length : length (values st) = length xs;
  ok_values : ∀ i x, values st !! i = Some (Some x) → xs !! i = Some x;
  ok_count : remainingElementsCount st = empty_slots (values st);
  ok_outcome :
    match outcome st with
    | Pending => 0 < remainingElementsCount st
    | Fulfilled l => l = xs ∧ remainingElementsCount st = 0
    | Rejected _ => False
    end
}.

(** Slot [i] holds the value of its element. *)
Definition filled {A} (st : AllState A) (i : nat) : Prop :=
  ∃ x, values st !! i = Some (Some x).

(** What holds of the state of [Promise.all] when element [j] is rejected. *)
Record one_failing {A} (j : nat) (st : AllState A) : Prop := {
  failing_slot : values st !! j = Some None;
  failing_count : remainingElementsCount st = empty_slots (values st);
  failing_outcome : ∀ l, outcome st ≠ Fulfilled l
}.

(** ** Further notions used in the statements *)

(** The requests the session itself has sent, oldest first. *)
Definition requests_sent (b : SmartBridge) : list Request :=
  omap (λ e, match e with ClientRequest r => Some r | _ => None end) (effects b).

(** The listeners the session has put on its client, oldest first. *)
Definition listeners_registered (b : SmartBridge) : list (ClientEvent * Handler) :=
  omap (λ e, match e with ClientOn ev h => Some (ev, h) | _ => None end) (effects b).

(** The timer of the ping loop. *)
Definition ping_timer : Timer :=
  {| delay := PING_INTERVAL_MS; callback := PingTimeoutCallback |}.

(** The events of one cycle per response, as the clock orders them: the
    timer of the ping loop fires; the ping it sends is answered by the
    response before the timeout; the timeout of the cycle, armed before the
    next ping timer and for a shorter time, fires before that one does. *)
Fixpoint answered_pings (responses : list Response) (b : SmartBridge) : list Event :=
  match responses with
  | [] => []
  | response :: rest =>
      let cycle := [TimerFires (pingLooper b);
                    PingResolves (next_handle b) response;
                    TimerFires (next_handle b)] in
      cycle ++ answered_pings rest (run b cycle)
  end.

(** Timer [h] is pending and due before every other pending timer: each
    other one was armed later (handles grow with time) and runs at least as
    long. *)
Definition fires_earliest (b : SmartBridge) (h : nat) : Prop :=
  is_Some (timers b !! h)
  ∧ ∀ t h' t', timers b !! h = Some t → timers b !! h' = Some t' → h' ≠ h →
               h < h' ∧ (delay t <= delay t')%Z.

(** Every timer that fires in [evs] is the one due first when it fires. *)
Fixpoint deadline_order (b : SmartBridge) (evs : list Event) : Prop :=
  match evs with
  | [] => True
  | ev :: rest =>
      match ev with
      | TimerFires h => fires_earliest b h
      | _ => True
      end
      ∧ deadline_order (step b ev) rest
  end.

(** Everything the session has emitted to its subscribers, oldest first. *)
Definition emitted (b : SmartBridge) : list Notification :=
  omap (λ e, match e with Emit n => Some n | _ => None end) (effects b).

Definition is_Fulfilled {A} (p : Promise A) : bool :=
  match p with Fulfilled _ => true | _ => false end.

(** The calls the session has made on its client, oldest first. *)
Definition is_client_call (e : Effect) : bool :=
  match e with Emit _ => false | _ => true end.

Definition client_calls (b : SmartBridge) : list Effect :=
  List.filter is_client_call (effects b).

Definition is_ClientUnsolicited (ev : Event) : bool :=
  match ev with ClientUnsolicited _ => true | _ => false end.

(** The events of [evs] other than the unsolicited messages. *)
Definition without_unsolicited (evs : list Event) : list Event :=
  List.filter (λ ev, negb (is_ClientUnsolicited ev)) evs.

(** Two sessions agree on the ping loop and on the calls made on the
    client. *)
Record same_monitor (b1 b2 : SmartBridge) : Prop := {
  same_pingLooper : pingLooper b1 = pingLooper b2;
  same_timers : timers b1 = timers b2;
  same_next_handle : next_handle b1 = next_handle b2;
  same_races : races b1 = races b2;
  same_client_calls : client_calls b1 = client_calls b2
}.

(** What an [await] makes of a promise that is not fulfilled. *)
Definition forward {A B} (p : Promise A) : Promise B :=
  match p with
  | Rejected e => Rejected e
  | _ => Pending
  end.

(** A transport that fails every request with [e]. *)
Definition down (e : Err) : LeapClient := {| request := λ _, Rejected e |}.

(** A remote with one button group and no zone. *)
Definition pico_remote : Device :=
  {| device_href := "/device/2";
     FullyQualifiedName := ["Hall"; "Pico"];
     SerialNumber := "07654321";
     ModelNumber := "PJ2-3BRL-GXX-X01";
     FirmwareImage := {| Firmware := {| DisplayName := "001.003.004r000" |} |};
     ButtonGroups := [ {| href := "/buttongroup/2" |} ];
     LocalZones := [] |}.

Definition OneButtonGroupDefinition (bgroup : ButtonGroup) : BodyType :=
  {| body_Device := None; body_Devices := None; body_ZoneStatus := None;
     body_ButtonGroup := Some bgroup; body_Button := None |}.

Definition MultipleDeviceDefinition (devices : list Device) : BodyType :=
  {| body_Device := None; body_Devices := Some devices; body_ZoneStatus := None;
     body_ButtonGroup := None; body_Button := None |}.

Definition OneZoneStatus (status : ZoneStatus) : BodyType :=
  {| body_Device := None; body_Devices := None; body_ZoneStatus := Some status;
     body_ButtonGroup := None; body_Button := None |}.

(** [keypad_client] extended with the button group of [pico_remote]. *)
Definition pico_client : LeapClient :=
  {| request := λ r,
       if String.eqb (req_url r) "/buttongroup/2"
       then Fulfilled {| Body := Some (OneButtonGroupDefinition keypad) |}
       else request (keypad_client false) r |}.

(** A caller that reads the button group of a device and then its buttons. *)
Definition buttons_of_device (client : LeapClient) (device : Device)
    (order : list nat) : Async (list Button) :=
  bgroup ← getButtonGroupFromDevice client device;
  getButtonsFromGroup client bgroup order.

(** ** The invariant *)

(** The interval and the timeout of the ping loop, in milliseconds. *)
Lemma ping_constants : PING_INTERVAL_MS = 60000%Z ∧ PING_TIMEOUT_MS = 1000%Z.
Proof. by split. Qed.

(** Rewrites every lookup in an updated table and splits on the keys. *)
Ltac map_cases :=
  repeat match goal with
  | H : context [ <[_ := _]> _ !! _ ] |- _ => rewrite lookup_insert in H
  | H : context [ delete _ _ !! _ ] |- _ => rewrite lookup_delete in H
  | |- context [ <[_ := _]> _ !! _ ] => rewrite lookup_insert
  | |- context [ delete _ _ !! _ ] => rewrite lookup_delete
  | H : context [ decide ?P ] |- _ => destruct (decide P); simplify_eq/=
  | |- context [ decide ?P ] => destruct (decide P); simplify_eq/=
  end.

(** The constructor establishes the invariant. *)
Lemma Inv_new id : Inv (new_SmartBridge id).
Proof.
  split; cbn; unfold no_ping_timer, map_Forall; cbn; intros; map_cases;
    try done; try lia; auto.
Qed.

Ltac inv_solve :=
  split; cbn; unfold no_ping_timer, map_Forall in *; cbn; intros; map_cases;
  try done; try lia; eauto with lia.

(** The handle [setTimeout] hands out next is not in use. *)
Lemma fresh_handle_None {A} (m : gmap nat A) (n : nat) :
  (∀ h x, m !! h = Some x → h < n) → m !! n = None.
Proof.
  intros H. destruct (m !! n) eqn:E; [|done]. apply H in E. lia.
Qed.

Ltac inv_fin H2 H5 H6 H9 :=
  try done; try lia; eauto;
  try (match goal with
       | Ht : timers _ !! _ = Some ?t, Hc : callback ?t = RaceTimeoutCallback _ |- _ =>
           destruct (H6 _ _ _ Ht Hc) as (? & ? & [? ?]); simplify_eq/=
       end);
  repeat split;
  try done; try lia; eauto;
  try (apply Nat.lt_lt_succ_r; eauto; fail);
  try (exfalso; eapply H9; eauto; done);
  try (intro; edestruct H5; eauto; done);
  try (apply fresh_handle_None; done);
  try (match goal with
       | H : races ?b !! next_handle ?b = Some _ |- _ =>
           exfalso; apply H2 in H; lia
       end).

(** What every listener preserves, an emission of the client preserves. *)
Lemma client_emit_ind (P : SmartBridge → Prop) ev response b :
  (∀ b' r, P b' → P (_handleUnsolicited r b')) →
  (∀ b', P b' → P (close b')) →
  P b → P (client_emit ev response b).
Proof.
  intros Hu Hc. unfold client_emit. generalize (client_listeners ev b) as l.
  intros l. revert b. induction l as [|h l IH]; intros b Hb; [done|].
  cbn [foldl]. apply IH. destruct h, response; cbn; auto.
Qed.

(** Every event preserves the invariant. *)
Lemma Inv_step b ev : Inv b → Inv (step b ev).
Proof.
  intros [H1 H2 H3 H4 H5 H6 H7 H8 H9].
  destruct ev as [h|r resp|r e|resp| |]; cbn.
  - destruct (timers b !! h) as [[d [|r]]|] eqn:Hh; cbn.
    + destruct (H5 _ _ Hh eq_refl) as [-> Hd]; cbn in Hd.
      unfold pingLoop, clearTimeout; cbn.
      inv_solve; inv_fin H2 H5 H6 H9.
    + destruct (H6 _ _ _ Hh eq_refl) as (-> & Hd & Hrc); cbn in Hd.
      unfold settle_race; cbn.
      destruct (races b !! r) as [[[|] pd]|] eqn:Hr; cbn;
        inv_solve; inv_fin H2 H5 H6 H9.
    + inv_solve.
  - unfold ping_completes.
    destruct (races b !! r) as [[st [|]]|] eqn:Hr; cbn; [inv_solve; inv_fin H2 H5 H6 H9 | |inv_solve].
    unfold settle_race; cbn. rewrite lookup_insert_eq; cbn.
    destruct st; cbn; inv_solve; inv_fin H2 H5 H6 H9.
  - unfold ping_completes.
    destruct (races b !! r) as [[st [|]]|] eqn:Hr; cbn; [inv_solve; inv_fin H2 H5 H6 H9| |inv_solve].
    unfold settle_race; cbn. rewrite lookup_insert_eq; cbn.
    destruct st; cbn; inv_solve; inv_fin H2 H5 H6 H9.
  - apply client_emit_ind; [| |by split].
    + clear. intros b r [H1 H2 H3 H4 H5 H6 H7 H8 H9]. inv_solve.
    + clear. intros b [H1 H2 H3 H4 H5 H6 H7 H8 H9]. inv_solve; inv_fin H2 H5 H6 H9.
  - apply client_emit_ind; [| |by split].
    + clear. intros b r [H1 H2 H3 H4 H5 H6 H7 H8 H9]. inv_solve.
    + clear. intros b [H1 H2 H3 H4 H5 H6 H7 H8 H9]. inv_solve; inv_fin H2 H5 H6 H9.
  - inv_solve; inv_fin H2 H5 H6 H9.
Qed.

Lemma Inv_run evs : ∀ b, Inv b → Inv (run b evs).
Proof.
  induction evs as [|ev evs IH]; intros b Hb; cbn; [done|].
  apply IH, Inv_step, Hb.
Qed.

Lemma reachable_Inv b : reachable b → Inv b.
Proof. intros (id & evs & ->). apply Inv_run, Inv_new. Qed.

Lemma reachable_step b ev : reachable b → reachable (step b ev).
Proof.
  intros (id & evs & ->). exists id, (evs ++ [ev]).
  unfold run. by rewrite foldl_app.
Qed.

Lemma run_app b evs evs' : run b (evs ++ evs') = run (run b evs) evs'.
Proof. unfold run. apply foldl_app. Qed.

(** ** The session: notifications *)

(** Unfolds one step down to the tables and splits on what it looks up;
    the two emissions of the client are left for [client_emit_ind]. *)
Ltac emit_ind :=
  cbn [step];
  match goal with
  | |- context [client_emit ?ev ?r ?b] =>
      pattern (client_emit ev r b); apply client_emit_ind; cbv beta;
      [intros ?b' ?r' ?Hb'|intros ?b' ?Hb'|]
  end.

Ltac step_cases b ev :=
  destruct ev as [?h|?r ?resp|?r ?e|?resp| |]; [| | |emit_ind|emit_ind|];
  cbn;
  unfold ping_completes, settle_race, run_callback, settle_race, race_then,
    race_catch, pingLoop, _handleDisconnect, close, _setPingTimeout; cbn;
  repeat match goal with
  | |- context [ match ?m !! ?k with _ => _ end ] =>
      let E := fresh "E" in destruct (m !! k) as [[]|] eqn:E; cbn
  | |- context [ if ?c then _ else _ ] => destruct c; cbn
  | |- context [ match ?c with PingTimeoutCallback => _ | _ => _ end ] =>
      destruct c; cbn
  end.

(** The identifier of a session never changes. *)
Lemma step_bridgeID b ev : bridgeID (step b ev) = bridgeID b.
Proof. step_cases b ev; done. Qed.

Lemma run_bridgeID evs : ∀ b, bridgeID (run b evs) = bridgeID b.
Proof.
  induction evs as [|ev evs IH]; intros b; cbn; [done|].
  by rewrite IH, step_bridgeID.
Qed.

(** No event makes the session emit [disconnected]. *)
Lemma step_disconnected_emitted b ev :
  disconnected_emitted (step b ev) = disconnected_emitted b.
Proof.
  unfold disconnected_emitted.
  step_cases b ev; rewrite ?List.filter_app; cbn; rewrite ?length_app; cbn; lia.
Qed.

Lemma run_disconnected_emitted evs :
  ∀ b, disconnected_emitted (run b evs) = disconnected_emitted b.
Proof.
  induction evs as [|ev evs IH]; intros b; cbn; [done|].
  by rewrite IH, step_disconnected_emitted.
Qed.

(** C1 (the code against the claim): whatever happens to a session, and in
    particular when the transport reports [disconnected], the session has
    emitted [disconnected] to its subscribers not once but never:
    [_handleDisconnect] closes and emits nothing. *)
Theorem handleDisconnect_emits_no_disconnected (id : string) (before after : list Event) :
  disconnected_emitted
    (run (new_SmartBridge id) (before ++ ClientDisconnected :: after)) = 0.
Proof.
  rewrite run_disconnected_emitted. reflexivity.
Qed.

(** No event puts a listener on the client or takes one off. *)
Lemma step_client_listeners ev' b ev :
  client_listeners ev' (step b ev) = client_listeners ev' b.
Proof.
  unfold client_listeners.
  step_cases b ev; rewrite ?omap_app; cbn; rewrite ?app_nil_r; done.
Qed.

(** The constructor wires the client, and the wiring stays. *)
Lemma wired_new id : wired (new_SmartBridge id).
Proof. by split. Qed.

Lemma wired_step b ev : wired b → wired (step b ev).
Proof. unfold wired. by rewrite !step_client_listeners. Qed.

Lemma wired_run evs : ∀ b, wired b → wired (run b evs).
Proof.
  induction evs as [|ev evs IH]; intros b Hb; [done|].
  apply IH, wired_step, Hb.
Qed.

Lemma reachable_wired b : reachable b → wired b.
Proof. intros (id & evs & ->). apply wired_run, wired_new. Qed.

(** On a wired client an unsolicited message reaches [_handleUnsolicited]
    once, and [disconnected] reaches [_handleDisconnect] once. *)
Lemma step_unsolicited_wired b response :
  wired b → step b (ClientUnsolicited response) = _handleUnsolicited response b.
Proof. intros [Hu _]. cbn. unfold client_emit. by rewrite Hu. Qed.

Lemma step_disconnected_wired b :
  wired b → step b ClientDisconnected = _handleDisconnect b.
Proof. intros [_ Hd]. cbn. unfold client_emit. by rewrite Hd. Qed.

(** The same on a wired client, where each emission is one call. *)
Ltac step_cases_wired b ev Hw :=
  destruct ev as [?h|?r ?resp|?r ?e|?resp| |];
  rewrite ?(step_unsolicited_wired _ _ Hw), ?(step_disconnected_wired _ Hw);
  cbn;
  unfold ping_completes, settle_race, run_callback, settle_race, race_then,
    race_catch, pingLoop, _handleDisconnect, _handleUnsolicited, close,
    _setPingTimeout; cbn;
  repeat match goal with
  | |- context [ match ?m !! ?k with _ => _ end ] =>
      let E := fresh "E" in destruct (m !! k) as [[]|] eqn:E; cbn
  | |- context [ if ?c then _ else _ ] => destruct c; cbn
  | |- context [ match ?c with PingTimeoutCallback => _ | _ => _ end ] =>
      destruct c; cbn
  end.

Lemma step_unsolicited_emitted b ev :
  wired b →
  unsolicited_emitted (step b ev) =
  unsolicited_emitted b ++
    match ev with
    | ClientUnsolicited response => [(bridgeID b, response)]
    | _ => []
    end.
Proof.
  intros Hw. unfold unsolicited_emitted.
  step_cases_wired b ev Hw; rewrite ?omap_app; cbn; by rewrite ?app_nil_r.
Qed.

(** No unsolicited message is lost, duplicated, reordered or changed: the
    notifications a session has emitted are the messages the transport has
    delivered, each tagged with the identifier the session was built with. *)
Lemma unsolicited_trace id evs :
  unsolicited_emitted (run (new_SmartBridge id) evs) =
  (λ response, (id, response)) <$> unsolicited_delivered evs.
Proof.
  assert (G : ∀ evs b, wired b → unsolicited_emitted (run b evs) =
            unsolicited_emitted b ++
            ((λ response, (bridgeID b, response)) <$> unsolicited_delivered evs)).
  { clear. induction evs as [|ev evs IH]; intros b Hw; cbn.
    - by rewrite app_nil_r.
    - rewrite IH by (by apply wired_step).
      rewrite step_unsolicited_emitted, step_bridgeID, <- app_assoc by done.
      f_equal. unfold unsolicited_delivered. by destruct ev. }
  rewrite G by apply wired_new. reflexivity.
Qed.

(** C10: in whatever state a session is, closed or not, the client still
    holds for [unsolicited] the one listener the constructor gave it, nothing
    having taken it off; so an unsolicited message of the transport makes the
    session emit one [unsolicited] notification, with the identifier it was
    built with and the response as received, and nothing else. *)
Theorem unsolicited_relay (id : string) (evs : list Event) (response : Response) :
  let b := run (new_SmartBridge id) evs in
  client_listeners unsolicited b = [_handleUnsolicited_bound]
  ∧ effects (step b (ClientUnsolicited response)) =
    effects b ++ [Emit (EmitUnsolicited id response)]
  ∧ timers (step b (ClientUnsolicited response)) = timers b
  ∧ races (step b (ClientUnsolicited response)) = races b
  ∧ pingLooper (step b (ClientUnsolicited response)) = pingLooper b.
Proof.
  cbv zeta.
  pose proof (wired_run evs _ (wired_new id)) as Hw.
  split; [exact (proj1 Hw)|].
  rewrite (step_unsolicited_wired _ _ Hw).
  cbn. rewrite run_bridgeID. cbn. done.
Qed.

(** ** The session: teardown *)

Lemma step_close_trigger b ev : wired b → is_close_trigger ev → step b ev = close b.
Proof. intros Hw Hev. destruct ev; try done. by apply step_disconnected_wired. Qed.

Lemma client_closes_perform b e :
  client_closes (perform e b) = client_closes b + (if is_ClientClose e then 1 else 0).
Proof.
  unfold client_closes; cbn. rewrite List.filter_app, length_app; cbn.
  by destruct (is_ClientClose e).
Qed.

Lemma close_spec b :
  client_closes (close b) = client_closes b + 1
  ∧ pingLooper (close b) = pingLooper b
  ∧ next_handle (close b) = next_handle b
  ∧ races (close b) = races b
  ∧ timers (close b) = delete (pingLooper b) (timers b).
Proof.
  unfold close. rewrite client_closes_perform. cbn. done.
Qed.

(** [close] cancels the pending timer of the ping loop. *)
Lemma close_cancels_ping_timer b : reachable b → no_ping_timer (close b).
Proof.
  intros Hb%reachable_Inv. destruct Hb as [_ _ _ _ H5 _ _ _ _].
  intros h t; cbn. intros Ht Hc. map_cases.
  destruct (H5 _ _ Ht Hc). congruence.
Qed.

(** C2 (what is false of the code): two calls of [close], and a call of
    [close] followed by the transport's [disconnected], each invoke the
    transport's [close] twice, not once. *)
Lemma close_twice_closes_client_twice :
  client_closes (run (new_SmartBridge "bridge") [CallClose; CallClose]) ≠ 1
  ∧ client_closes (run (new_SmartBridge "bridge") [CallClose; ClientDisconnected]) ≠ 1.
Proof. split; vm_compute; discriminate. Qed.

(** C2 (as amended): every teardown trigger, a call of [close] or the
    transport's [disconnected], invokes the transport's [close] once more (two
    triggers invoke it twice); no trigger calls [setTimeout], so none
    schedules a ping timer; and from the first trigger on the timer table is
    the one the first trigger left, with the session's timer removed.
    The session is one whose client holds the listeners of the constructor,
    as every reachable session does ([reachable_wired]); that is how
    [disconnected] gets to [_handleDisconnect]. *)
Theorem close_triggers (b : SmartBridge) (ts : list Event) :
  wired b →
  Forall is_close_trigger ts →
  client_closes (run b ts) = client_closes b + length ts
  ∧ pingLooper (run b ts) = pingLooper b
  ∧ next_handle (run b ts) = next_handle b
  ∧ races (run b ts) = races b
  ∧ (ts ≠ [] → timers (run b ts) = delete (pingLooper b) (timers b)).
Proof.
  intros Hw Hts. revert b Hw.
  induction Hts as [|t ts Ht Hts IH]; intros b Hw.
  - cbn. repeat split; try lia; done.
  - change (run b (t :: ts)) with (run (step b t) ts).
    rewrite (step_close_trigger _ _ Hw Ht).
    destruct (IH (close b) (wired_step b CallClose Hw)) as (Hc & Hp & Hn & Hr & Htm).
    destruct (close_spec b) as (Hc' & Hp' & Hn' & Hr' & Htm').
    split; [cbn [length]; lia|].
    repeat (split; [congruence|]).
    intros _. destruct ts as [|t' ts'].
    + exact Htm'.
    + rewrite Htm by done. rewrite Hp', Htm'. apply delete_delete_eq.
Qed.

Lemma close_triggers_witness :
  wired (new_SmartBridge "bridge")
  ∧ Forall is_close_trigger [CallClose; ClientDisconnected]
  ∧ client_closes (run (new_SmartBridge "bridge") [CallClose; ClientDisconnected]) =
    client_closes (new_SmartBridge "bridge") + 2
  ∧ timers (run (new_SmartBridge "bridge") [CallClose; ClientDisconnected]) =
    delete (pingLooper (new_SmartBridge "bridge")) (timers (new_SmartBridge "bridge")).
Proof.
  assert (H : Forall is_close_trigger [CallClose; ClientDisconnected])
    by repeat constructor.
  destruct (close_triggers (new_SmartBridge "bridge") _ (wired_new "bridge") H)
    as (Hc & _ & _ & _ & Ht).
  split; [exact (wired_new "bridge")|].
  split; [exact H|]. split; [exact Hc | apply Ht; discriminate].
Defined.

(** ** The session: the ping loop *)

(** The start of a cycle: when the timer of the ping loop fires, the timeout
    is armed, the ping is sent, and a race between the two is open. *)

(** ** The session: the ping loop *)

(** The handle in [pingLooper] is never the handle of a timeout timer. *)
Lemma pingLooper_timer b t :
  Inv b → timers b !! pingLooper b = Some t →
  t = {| delay := PING_INTERVAL_MS; callback := PingTimeoutCallback |}.
Proof.
  intros [H1 H2 H3 H4 H5 H6 H7 H8 H9] Ht.
  destruct t as [d [|r]].
  - destruct (H5 _ _ Ht eq_refl) as [_ Hd]. cbn in Hd. by subst.
  - destruct (H6 _ _ _ Ht eq_refl) as (Hr & _ & [rc Hrc]).
    rewrite <- Hr, H4 in Hrc. done.
Qed.

(** The start of a cycle: when the timer of the ping loop fires, the timeout
    is armed, the ping is sent, and a race between the two is open. *)
Lemma pingLoop_dispatch b :
  reachable b →
  is_Some (timers b !! pingLooper b) →
  let b' := step b (TimerFires (pingLooper b)) in
  let r := next_handle b in
  effects b' = effects b ++ [ClientRequest ping_request]
  ∧ races b' !! r = Some {| settled := false; ping_done := false |}
  ∧ timers b' !! r = Some {| delay := PING_TIMEOUT_MS; callback := RaceTimeoutCallback r |}
  ∧ no_ping_timer b'.
Proof.
  intros Hb [t Ht]. apply reachable_Inv in Hb.
  pose proof (pingLooper_timer _ _ Hb Ht) as ->.
  destruct Hb as [H1 H2 H3 H4 H5 H6 H7 H8 H9].
  cbn. rewrite Ht. cbn. rewrite !lookup_insert_eq.
  repeat split.
  intros h t; cbn. intros Hh Hc. map_cases.
  destruct (H5 _ _ Hh Hc). congruence.
Qed.

(** Once the ping loop has stopped it stays stopped, whatever happens. *)
Lemma ping_loop_stopped_step b ev : ping_loop_stopped b → ping_loop_stopped (step b ev).
Proof.
  intros Hs.
  assert (Hclose : ∀ b', ping_loop_stopped b' → ping_loop_stopped (close b')).
  { intros b' [Ht' Hr']. split; [|done].
    intros i x Hi; cbn in Hi. map_cases. by eapply Ht'. }
  destruct ev as [h|r resp|r e|resp| |];
    [| | |cbn [step]; apply client_emit_ind; [intros b' r' Hb'; exact Hb'|exact Hclose|exact Hs]
         |cbn [step]; apply client_emit_ind; [intros b' r' Hb'; exact Hb'|exact Hclose|exact Hs]
         |by apply Hclose].
  all: clear Hclose; destruct Hs as [Ht Hr];
    unfold no_ping_timer, no_open_race, map_Forall in *; cbn.
  - destruct (timers b !! h) as [[d [|r]]|] eqn:Hh; cbn; [|  |done].
    + by destruct (Ht _ _ Hh).
    + unfold settle_race; cbn.
      destruct (races b !! r) as [[st pd]|] eqn:Er; cbn.
      * pose proof (Hr _ _ Er) as Hs; cbn in Hs; subst st; cbn.
        split; [|done]. intros i x Hi; cbn in Hi. map_cases. eauto.
      * split; [|done]. intros i x Hi; cbn in Hi. map_cases. eauto.
  - unfold ping_completes.
    destruct (races b !! r) as [[st [|]]|] eqn:Er; cbn; try done.
    pose proof (Hr _ _ Er) as Hs; cbn in Hs; subst st.
    unfold settle_race; cbn. rewrite lookup_insert_eq; cbn.
    split; [done|]. intros i x Hi; cbn in Hi. map_cases; eauto.
  - unfold ping_completes.
    destruct (races b !! r) as [[st [|]]|] eqn:Er; cbn; try done.
    pose proof (Hr _ _ Er) as Hs; cbn in Hs; subst st.
    unfold settle_race; cbn. rewrite lookup_insert_eq; cbn.
    split; [done|]. intros i x Hi; cbn in Hi. map_cases; eauto.
Qed.

Lemma ping_loop_stopped_run evs : ∀ b, ping_loop_stopped b → ping_loop_stopped (run b evs).
Proof.
  induction evs as [|ev evs IH]; intros b Hb; [done|].
  apply IH, ping_loop_stopped_step, Hb.
Qed.

(** C3 (what is false of the code): once the ping has resolved, the timeout
    it raced against is still pending; nothing cancels it. *)
Lemma ping_resolved_timeout_still_pending :
  ¬ timeout_cancelled
      (run (new_SmartBridge "bridge") [TimerFires 0; PingResolves 1 some_response]) 1.
Proof. unfold timeout_cancelled. vm_compute. discriminate. Qed.

(** C3 (as amended): take any reachable session with an open race [r] whose
    ping is in flight.
    - If the ping resolves, the transport's [close] is not invoked and the
      ping timer is armed once, for [PING_INTERVAL_MS], under the handle in
      [pingLooper], and no other ping timer is pending; the timeout of the
      race stays pending, and when it fires later it has no effect.
    - If the timeout fires first, or the ping fails, the transport's [close]
      is invoked once and the ping loop has stopped. *)
Theorem ping_race (b : SmartBridge) (r : nat) :
  reachable b →
  races b !! r = Some {| settled := false; ping_done := false |} →
  (∀ response,
     let b' := step b (PingResolves r response) in
     effects b' = effects b
     ∧ timers b' !! pingLooper b' =
         Some {| delay := PING_INTERVAL_MS; callback := PingTimeoutCallback |}
     ∧ (∀ h t, timers b' !! h = Some t → callback t = PingTimeoutCallback →
               h = pingLooper b')
     ∧ timers b' !! r =
         Some {| delay := PING_TIMEOUT_MS; callback := RaceTimeoutCallback r |}
     ∧ effects (step b' (TimerFires r)) = effects b'
     ∧ pingLooper (step b' (TimerFires r)) = pingLooper b'
     ∧ timers (step b' (TimerFires r)) = delete r (timers b'))
  ∧ (let b' := step b (TimerFires r) in
     effects b' = effects b ++ [ClientClose] ∧ ping_loop_stopped b')
  ∧ (∀ e,
     let b' := step b (PingRejects r e) in
     effects b' = effects b ++ [ClientClose] ∧ ping_loop_stopped b').
Proof.
  intros Hb Hr.
  assert (Hsteps : ∀ ev, Inv (step b ev)).
  { intros ev. apply reachable_Inv, reachable_step, Hb. }
  apply reachable_Inv in Hb.
  pose proof Hb as [H1 H2 H3 H4 H5 H6 H7 H8 H9].
  pose proof (H7 _ _ Hr eq_refl) as Ht.
  assert (Hne : pingLooper b ≠ r) by (intros <-; congruence).
  assert (Hnn : next_handle b ≠ r) by (apply H2 in Hr; lia).
  split; [|split].
  - intros response. cbv zeta.
    pose proof (Hsteps (PingResolves r response)) as Hb'.
    remember (step b (PingResolves r response)) as b' eqn:E0.
    assert (Eb' : b' = race_then (with_races
              <[r := {| settled := true; ping_done := true |}]>
              (with_races <[r := {| settled := false; ping_done := true |}]> b))).
    { rewrite E0; cbn. unfold ping_completes. rewrite Hr; cbn.
      unfold settle_race; cbn. rewrite lookup_insert_eq; cbn. done. }
    clear E0.
    assert (Hr' : timers b' !! r =
              Some {| delay := PING_TIMEOUT_MS; callback := RaceTimeoutCallback r |}).
    { rewrite Eb'; cbn. rewrite lookup_insert_ne, lookup_delete_ne by done. done. }
    assert (Hrc' : races b' !! r = Some {| settled := true; ping_done := true |}).
    { rewrite Eb'; cbn. by rewrite lookup_insert_eq. }
    split; [by rewrite Eb'|].
    split; [rewrite Eb'; cbn; by rewrite lookup_insert_eq|].
    split; [intros h t Hh Hc; by destruct (inv_ping_timer _ Hb' _ _ Hh Hc)|].
    split; [done|].
    cbn. rewrite Hr'. cbn. unfold settle_race. cbn. rewrite Hrc'. cbn. done.
  - cbv zeta. remember (step b (TimerFires r)) as b' eqn:E0.
    assert (Eb' : b' = race_catch (with_races
              <[r := {| settled := true; ping_done := false |}]>
              (with_timers (delete r) b))).
    { rewrite E0; cbn. rewrite Ht; cbn. unfold settle_race; cbn. by rewrite Hr. }
    split; [by rewrite Eb'|].
    rewrite Eb'. split.
    + intros h t; cbn. intros Hh. map_cases. eapply H9; eauto.
    + intros r' rc; cbn. intros Hr'. map_cases; [done|].
      destruct (settled rc) eqn:Hs; [done|].
      exfalso. eauto.
  - intros e. cbv zeta. remember (step b (PingRejects r e)) as b' eqn:E0.
    assert (Eb' : b' = race_catch (with_races
              <[r := {| settled := true; ping_done := true |}]>
              (with_races <[r := {| settled := false; ping_done := true |}]> b))).
    { rewrite E0; cbn. unfold ping_completes. rewrite Hr; cbn.
      unfold settle_race; cbn. rewrite lookup_insert_eq; cbn. done. }
    split; [by rewrite Eb'|].
    rewrite Eb'. split.
    + intros h t; cbn. intros Hh. eapply H9; eauto.
    + intros r' rc; cbn. intros Hr'. map_cases; [done|].
      destruct (settled rc) eqn:Hs; [done|].
      exfalso. eauto.
Qed.

Lemma ping_race_witness :
  let b := run (new_SmartBridge "bridge") [TimerFires 0] in
  reachable b
  ∧ races b !! 1 = Some {| settled := false; ping_done := false |}
  ∧ effects (step b (PingResolves 1 some_response)) = effects b
  ∧ effects (step b (TimerFires 1)) = effects b ++ [ClientClose]
  ∧ effects (step b (PingRejects 1 (TransportError "socket closed"))) =
      effects b ++ [ClientClose].
Proof.
  cbv zeta.
  assert (Hb : reachable (run (new_SmartBridge "bridge") [TimerFires 0]))
    by (by exists "bridge", [TimerFires 0]).
  assert (Hr : races (run (new_SmartBridge "bridge") [TimerFires 0]) !! 1 =
               Some {| settled := false; ping_done := false |})
    by (vm_compute; reflexivity).
  destruct (ping_race _ 1 Hb Hr) as (Hok & Hto & Hfail).
  split; [exact Hb|]. split; [exact Hr|].
  split; [exact (proj1 (Hok some_response))|].
  split; [exact (proj1 Hto)|].
  exact (proj1 (Hfail (TransportError "socket closed"))).
Defined.

(** C4 (the code against the claim): a session whose ping is in flight is
    closed; the transport's [close] has been invoked and no ping timer is
    pending.  The ping then resolves, and the [then] handler of the race arms
    the ping timer again: a timer is scheduled after the close.  If instead
    the timeout of that race fires, the transport's [close] is invoked a
    second time. *)
Theorem ping_resolving_after_close_arms_timer :
  let closed := run (new_SmartBridge "bridge") [TimerFires 0; CallClose] in
  let b := step closed (PingResolves 1 some_response) in
  client_closes closed = 1
  ∧ no_ping_timer closed
  ∧ timers b !! pingLooper b =
      Some {| delay := PING_INTERVAL_MS; callback := PingTimeoutCallback |}
  ∧ next_handle b = S (next_handle closed)
  ∧ client_closes (step closed (TimerFires 1)) = 2.
Proof.
  cbv zeta. split; [vm_compute; reflexivity|].
  split.
  - apply close_cancels_ping_timer. by exists "bridge", [TimerFires 0].
  - repeat split; vm_compute; reflexivity.
Qed.

(** ** The command layer *)

(** [ping] issues the request the ping loop logs. *)
Lemma ping_spec client log :
  ping client log = (log ++ [ping_request], request client ping_request).
Proof. reflexivity. Qed.

Lemma string_app_assoc (s1 s2 s3 : string) : (s1 +:+ s2) +:+ s3 = s1 +:+ s2 +:+ s3.
Proof.
  induction s1 as [|a s1 IH]; [reflexivity|].
  change (String a ((s1 +:+ s2) +:+ s3) = String a (s1 +:+ s2 +:+ s3)).
  by rewrite IH.
Qed.

Lemma string_app_nil_r (s : string) : s +:+ "" = s.
Proof.
  induction s as [|a s IH]; [reflexivity|].
  change (String a (s +:+ "") = String a s). by rewrite IH.
Qed.

Lemma Array_join_from sep l : ∀ k R,
  snd (foldl (λ '(k, R) element,
                (S k, (match k with O => R | S _ => R +:+ sep end) +:+ element))
             (S k, R) l)
  = R +:+ match l with [] => "" | _ :: _ => sep +:+ String.concat sep l end.
Proof.
  induction l as [|x l IH]; intros k R; cbn [foldl].
  - cbn. by rewrite string_app_nil_r.
  - rewrite IH. rewrite !string_app_assoc. destruct l as [|y l]; cbn [String.concat].
    + by rewrite string_app_nil_r.
    + done.
Qed.

(** [Array.prototype.join] puts the separator between consecutive
    elements, once. *)
Lemma Array_join_concat sep l : Array_join sep l = String.concat sep l.
Proof.
  unfold Array_join. destruct l as [|x l]; [reflexivity|].
  cbn [foldl]. rewrite Array_join_from.
  change ("" +:+ x) with x.
  destruct l as [|y l]; cbn [String.concat]; [apply string_app_nil_r|done].
Qed.

(** C9: when the answer to the read of [/device/1] has a body with a
    [Device], [getBridgeInfo] issues that one read and returns a snapshot
    whose name is the name components of the device joined with single
    spaces and whose manufacturer is the same string whatever the answer;
    the other three fields are read off the device. *)
Theorem getBridgeInfo_snapshot (client : LeapClient) (body : BodyType) (device : Device)
    (log : list Request) :
  request client (read "/device/1") = Fulfilled {| Body := Some body |} →
  body_Device body = Some device →
  getBridgeInfo client log =
    (log ++ [read "/device/1"],
     Fulfilled {| firmwareRevision := DisplayName (Firmware (FirmwareImage device));
                  manufacturer := "Lutron Electronics Co., Inc";
                  model := ModelNumber device;
                  name := String.concat " " (FullyQualifiedName device);
                  serialNumber := SerialNumber device |}).
Proof.
  intros Hreq Hdev. unfold getBridgeInfo, mbind, Async_bind, client_request, await.
  fold (read "/device/1"). rewrite Hreq. cbn. rewrite Hdev.
  unfold mret, Async_ret. by rewrite Array_join_concat.
Qed.

Lemma getBridgeInfo_snapshot_witness :
  request (always (one_device living_room_shade)) (read "/device/1") =
    Fulfilled (one_device living_room_shade)
  ∧ getBridgeInfo (always (one_device living_room_shade)) [] =
    ([read "/device/1"],
     Fulfilled {| firmwareRevision := "08.08.17f000";
                  manufacturer := "Lutron Electronics Co., Inc";
                  model := "L-BDG2-WH";
                  name := "Living Room Shade";
                  serialNumber := "01234567" |}).
Proof.
  split; [reflexivity|].
  apply (getBridgeInfo_snapshot (always (one_device living_room_shade))
           (OneDeviceDefinition living_room_shade) living_room_shade []);
    reflexivity.
Defined.

(** The four operations that check the shape of the answer: a body
    without the discriminant they expect makes them fail with the error
    they raise themselves. *)
Lemma getBridgeInfo_bad_shape client body log :
  request client (read "/device/1") = Fulfilled {| Body := Some body |} →
  body_Device body = None →
  snd (getBridgeInfo client log) = Rejected (Error "Got bad response to bridge info request").
Proof.
  intros Hreq Hdev. unfold getBridgeInfo, mbind, Async_bind, client_request, await.
  fold (read "/device/1"). rewrite Hreq. cbn. by rewrite Hdev.
Qed.

Lemma getDeviceInfo_bad_shape client body log :
  request client (read "/device") = Fulfilled {| Body := Some body |} →
  body_Devices body = None →
  snd (getDeviceInfo client log) =
    Rejected (Error "got bad response to all device list request").
Proof.
  intros Hreq Hdev. unfold getDeviceInfo, mbind, Async_bind, client_request, await.
  fold (read "/device"). rewrite Hreq. cbn. by rewrite Hdev.
Qed.

Lemma getButtonGroupFromDevice_bad_shape client device group groups body log :
  ButtonGroups device = group :: groups →
  request client (read (href group)) = Fulfilled {| Body := Some body |} →
  body_ButtonGroup body = None →
  snd (getButtonGroupFromDevice client device log) =
    Rejected (Error "unable to get button group").
Proof.
  intros Hg Hreq Hbody.
  unfold getButtonGroupFromDevice, mbind, Async_bind, client_request, await.
  rewrite Hg. cbn. fold (read (href group)). rewrite Hreq. cbn. by rewrite Hbody.
Qed.

Lemma button_of_response_bad_shape body :
  body_Button body = None →
  button_of_response {| Body := Some body |} = Rejected (Error "unable to get button").
Proof. intros Hbody. unfold button_of_response; cbn. by rewrite Hbody. Qed.

(** [readBlindsTilt] on an answer with a [ZoneStatus]. *)
Lemma readBlindsTilt_value client device zone zones body status log :
  LocalZones device = zone :: zones →
  request client (read (href zone +:+ "/status")) = Fulfilled {| Body := Some body |} →
  body_ZoneStatus body = Some status →
  readBlindsTilt client device log =
    (log ++ [read (href zone +:+ "/status")], Fulfilled (Tilt status)).
Proof.
  intros Hz Hreq Hbody.
  unfold readBlindsTilt, mbind, Async_bind, client_request, await.
  rewrite Hz. cbn. fold (read (href zone +:+ "/status")). rewrite Hreq. cbn.
  by rewrite Hbody.
Qed.

(** [readBlindsTilt] does not check the shape: without a [ZoneStatus] in the
    body, reading [Tilt] raises the run-time TypeError, whatever else the
    body holds. *)
Lemma readBlindsTilt_bad_shape client device zone zones body log :
  LocalZones device = zone :: zones →
  request client (read (href zone +:+ "/status")) = Fulfilled {| Body := Some body |} →
  body_ZoneStatus body = None →
  snd (readBlindsTilt client device log) =
    Rejected (TypeError "Cannot read properties of undefined (reading 'Tilt')").
Proof.
  intros Hz Hreq Hbody.
  unfold readBlindsTilt, mbind, Async_bind, client_request, await.
  rewrite Hz. cbn. fold (read (href zone +:+ "/status")). rewrite Hreq. cbn.
  by rewrite Hbody.
Qed.

(** C5 (the code against the claim): the zone status of a device is read
    and the answer is a body with a [Device] and no [ZoneStatus], or a body
    with no discriminant at all.  [readBlindsTilt] fails with the TypeError
    of reading [Tilt] of [undefined], not with an error of its own; on the
    first answer [getDeviceInfo], which checks the shape, fails with its own
    error. *)
Theorem readBlindsTilt_unchecked_shape :
  let client := always (one_device living_room_shade) in
  snd (readBlindsTilt client living_room_shade []) =
    Rejected (TypeError "Cannot read properties of undefined (reading 'Tilt')")
  ∧ snd (readBlindsTilt (always some_response) living_room_shade []) =
    Rejected (TypeError "Cannot read properties of undefined (reading 'Tilt')")
  ∧ snd (getDeviceInfo client []) =
    Rejected (Error "got bad response to all device list request").
Proof. repeat split; reflexivity. Qed.

Lemma Math_round_nearest (q : Q) :
  ∃ n : Z, Math_round (Finite q) = Finite (inject_Z n) ∧ nearest_integer q n.
Proof.
  exists (Qfloor (q + (1 # 2))). split; [reflexivity|].
  pose proof (Qfloor_le (q + (1 # 2))) as Hle.
  pose proof (Qlt_floor (q + (1 # 2))) as Hlt.
  rewrite inject_Z_plus in Hlt. change (inject_Z 1) with 1%Q in Hlt.
  unfold nearest_integer. revert Hle Hlt.
  generalize (inject_Z (Qfloor (q + (1 # 2)))). intros n Hle Hlt.
  split; lra.
Qed.

Lemma nearest_integer_unique (q : Q) (n m : Z) :
  nearest_integer q n → nearest_integer q m → n = m.
Proof.
  intros [Hn1 Hn2] [Hm1 Hm2].
  assert (H1 : (inject_Z n < inject_Z (m + 1))%Q)
    by (rewrite inject_Z_plus; change (inject_Z 1) with 1%Q; lra).
  assert (H2 : (inject_Z m < inject_Z (n + 1))%Q)
    by (rewrite inject_Z_plus; change (inject_Z 1) with 1%Q; lra).
  rewrite <- Zlt_Qlt in H1, H2. lia.
Qed.

(** C8: for a device with at least one zone, [setBlindsTilt] issues one
    write, a [CreateRequest] to the command processor of the first zone whose
    body is the command [GoToTilt] with, as tilt, [Math.round] of the value;
    for a finite value that is the integer nearest to it. *)
Theorem setBlindsTilt_rounds (client : LeapClient) (device : Device) (zone : Href)
    (zones : list Href) (value : number) (log : list Request) :
  LocalZones device = zone :: zones →
  setBlindsTilt client device value log =
    (log ++ [{| req_type := CreateRequest;
                req_url := href zone +:+ "/commandprocessor";
                req_body := Some {| Command := {| CommandType := "GoToTilt";
                                                  TiltParameters := {| tp_Tilt := Math_round value |} |} |} |}],
     Fulfilled ())
  ∧ (∀ q, value = Finite q →
       ∃ n : Z, Math_round value = Finite (inject_Z n) ∧ nearest_integer q n).
Proof.
  intros Hz. split.
  - unfold setBlindsTilt, mbind, Async_bind, client_request, await.
    rewrite Hz. reflexivity.
  - intros q ->. apply Math_round_nearest.
Qed.

(** [setBlindsTilt(device, 47.6)] writes the tilt 48. *)
Lemma setBlindsTilt_rounds_witness :
  LocalZones living_room_shade = [ {| href := "/zone/1" |} ]
  ∧ setBlindsTilt (always some_response) living_room_shade (Finite (476 # 10)) [] =
    ([{| req_type := CreateRequest;
         req_url := "/zone/1/commandprocessor";
         req_body := Some {| Command := {| CommandType := "GoToTilt";
                                           TiltParameters := {| tp_Tilt := Finite (48 # 1) |} |} |} |}],
     Fulfilled ()).
Proof.
  split; [reflexivity|].
  destruct (setBlindsTilt_rounds (always some_response) living_room_shade
              {| href := "/zone/1" |} [] (Finite (476 # 10)) [] eq_refl) as [H _].
  exact H.
Defined.

(** Without a zone the first reference is [undefined]: no write is issued. *)
Lemma setBlindsTilt_no_zone client device value log :
  LocalZones device = [] →
  setBlindsTilt client device value log =
    (log, Rejected (TypeError "Cannot read properties of undefined (reading 'href')")).
Proof.
  intros Hz. unfold setBlindsTilt, mbind, Async_bind, await. by rewrite Hz.
Qed.

(** ** [Promise.all] and [getButtonsFromGroup] *)

Section promise_all.
Context {A : Type}.
Implicit Types (ps : list (Promise A)) (st : AllState A) (vs : list (option A)).

Lemma empty_slots_insert vs i (x : A) :
  vs !! i = Some None → S (empty_slots (<[i := Some x]> vs)) = empty_slots vs.
Proof.
  revert i. induction vs as [|v vs IH]; intros [|i] Hi; simplify_eq/=.
  - reflexivity.
  - unfold empty_slots in *. cbn. destruct v; cbn; rewrite <- (IH i Hi); done.
Qed.

Lemma empty_slots_lookup vs i : vs !! i = Some None → 0 < empty_slots vs.
Proof.
  revert i. induction vs as [|v vs IH]; intros [|i] Hi; simplify_eq/=.
  - unfold empty_slots; cbn; lia.
  - specialize (IH i Hi). unfold empty_slots in *. cbn. destruct v; cbn; lia.
Qed.

Lemma empty_slots_replicate n : empty_slots (replicate n (@None A)) = n.
Proof. induction n as [|n IH]; [done|]. unfold empty_slots in *; cbn. by rewrite IH. Qed.

Lemma no_empty_slots vs (xs : list A) :
  length vs = length xs →
  (∀ i x, vs !! i = Some (Some x) → xs !! i = Some x) →
  empty_slots vs = 0 →
  omap id vs = xs.
Proof.
  revert xs. induction vs as [|v vs IH]; intros [|x xs] Hlen Hvs Hempty;
    simplify_eq/=; [done|].
  destruct v as [y|]; [|unfold empty_slots in Hempty; cbn in Hempty; lia].
  cbn. f_equal.
  - specialize (Hvs 0 y eq_refl). by simplify_eq/=.
  - apply IH; [done| |done]. intros i z Hi. apply (Hvs (S i) z Hi).
Qed.

Lemma all_filled_no_empty vs :
  (∀ i, i < length vs → ∃ x, vs !! i = Some (Some x)) → empty_slots vs = 0.
Proof.
  induction vs as [|v vs IH]; intros Hall; [done|].
  destruct (Hall 0) as [x Hx]; [cbn; lia|]. cbn in Hx. simplify_eq.
  unfold empty_slots in *. cbn. apply IH.
  intros i Hi. apply (Hall (S i)). cbn; lia.
Qed.

(** A settled promise stays as it is. *)
Lemma Promise_all_settled ps st order :
  outcome st ≠ Pending → foldl (Promise_all_settle ps) st order = st.
Proof.
  intros Hst. induction order as [|i order IH]; [done|]. cbn.
  unfold Promise_all_settle at 2. destruct (outcome st); done.
Qed.

(** *** Every element is fulfilled *)

Lemma all_ok_start (xs : list A) : all_ok xs (Promise_all_start (Fulfilled <$> xs)).
Proof.
  split; cbn [Promise_all_start values remainingElementsCount outcome].
  - by rewrite length_replicate, length_fmap.
  - intros i x Hi. apply lookup_replicate in Hi as [? _]. done.
  - by rewrite empty_slots_replicate.
  - destruct xs; cbn; [done|lia].
Qed.

Lemma all_ok_settle (xs : list A) st i :
  all_ok xs st → all_ok xs (Promise_all_settle (Fulfilled <$> xs) st i).
Proof.
  intros [Hlen Hvs Hcount Hout]. unfold Promise_all_settle.
  destruct (outcome st) eqn:Eout; [by split; rewrite ?Eout| done |].
  rewrite list_lookup_fmap.
  destruct (xs !! i) as [x|] eqn:Ex; cbn; [|by split; rewrite ?Eout].
  destruct (values st !! i) as [[y|]|] eqn:Ev; [by split; rewrite ?Eout| |by split; rewrite ?Eout].
  pose proof (empty_slots_insert _ _ x Ev) as Hins.
  assert (Hrem : remainingElementsCount st - 1 = empty_slots (<[i:=Some x]> (values st)))
    by lia.
  split; cbn.
  - by rewrite length_insert.
  - intros j z Hj. destruct (decide (i = j)) as [->|Hne].
    + rewrite list_lookup_insert_eq in Hj by (eapply lookup_lt_Some; eauto).
      by simplify_eq.
    + rewrite list_lookup_insert_ne in Hj by done. eauto.
  - done.
  - destruct (remainingElementsCount st - 1) eqn:Er; [|lia].
    split; [|done]. apply no_empty_slots.
    + by rewrite length_insert.
    + intros j z Hj. destruct (decide (i = j)) as [->|Hne].
      * rewrite list_lookup_insert_eq in Hj by (eapply lookup_lt_Some; eauto).
        by simplify_eq.
      * rewrite list_lookup_insert_ne in Hj by done. eauto.
    + done.
Qed.

Lemma filled_settle (xs : list A) st i j :
  filled st j → filled (Promise_all_settle (Fulfilled <$> xs) st i) j.
Proof.
  intros [z Hz]. unfold Promise_all_settle.
  destruct (outcome st); [by exists z| by exists z|].
  destruct ((Fulfilled <$> xs) !! i) as [[x| |]|]; try by exists z.
  destruct (values st !! i) as [[y|]|] eqn:Ev; try by exists z.
  destruct (decide (i = j)) as [->|Hne]; [congruence|].
  exists z. cbn. by rewrite list_lookup_insert_ne.
Qed.

Lemma settle_fills (xs : list A) st i :
  all_ok xs st → i < length xs →
  filled (Promise_all_settle (Fulfilled <$> xs) st i) i.
Proof.
  intros [Hlen Hvs Hcount Hout] Hi. unfold Promise_all_settle.
  assert (Hslot : is_Some (values st !! i)) by (apply lookup_lt_is_Some; lia).
  destruct Hslot as [[y|] Ev].
  - assert (filled st i) by by exists y.
    destruct (outcome st); [done|done|].
    destruct ((Fulfilled <$> xs) !! i) as [[x| |]|]; try done. by rewrite Ev.
  - destruct (outcome st) eqn:Eout.
    + destruct Hout as [_ H0]. apply empty_slots_lookup in Ev. lia.
    + done.
    + rewrite list_lookup_fmap.
      destruct (lookup_lt_is_Some_2 xs i Hi) as [x Ex]. rewrite Ex; cbn. rewrite Ev.
      exists x; cbn. apply list_lookup_insert_eq. lia.
Qed.

Lemma all_ok_run (xs : list A) order : ∀ st,
  all_ok xs st →
  let st' := foldl (Promise_all_settle (Fulfilled <$> xs)) st order in
  all_ok xs st'
  ∧ (∀ j, filled st j → filled st' j)
  ∧ (∀ i, i ∈ order → i < length xs → filled st' i).
Proof.
  induction order as [|i order IH]; intros st Hst; cbn.
  - split; [done|]. split; [done|]. intros i Hi. by apply not_elem_of_nil in Hi.
  - destruct (IH _ (all_ok_settle xs st i Hst)) as (Hok & Hmono & Hfill).
    split; [done|]. split.
    + intros j Hj. by apply Hmono, filled_settle.
    + intros j [->|Hj]%elem_of_cons Hlt; [|by apply Hfill].
      by apply Hmono, settle_fills.
Qed.

(** When every element is fulfilled and every element has settled, in
    whatever order, the promise is fulfilled with the values in the order
    of the elements. *)
Lemma Promise_all_ordered (xs : list A) (order : list nat) :
  (∀ i, i < length xs → i ∈ order) →
  Promise_all (Fulfilled <$> xs) order = Fulfilled xs.
Proof.
  intros Hcover. unfold Promise_all.
  destruct (all_ok_run xs order _ (all_ok_start xs)) as ([Hlen Hvs Hcount Hout] & _ & Hfill).
  cbv zeta in *.
  set (st := foldl _ _ _) in *.
  destruct (outcome st) as [l| |]; [by destruct Hout as [-> _]|done|].
  exfalso. rewrite Hcount in Hout.
  rewrite all_filled_no_empty in Hout; [lia|].
  intros i Hi. rewrite Hlen in Hi. apply Hfill; auto.
Qed.

(** *** One element is rejected *)

Lemma one_failing_start ps j e :
  ps !! j = Some (Rejected e) → one_failing j (Promise_all_start ps).
Proof.
  intros Hj. split; cbn [Promise_all_start values remainingElementsCount outcome].
  - apply lookup_replicate. split; [done|]. eapply lookup_lt_Some, Hj.
  - by rewrite empty_slots_replicate.
  - destruct ps; [done|]. done.
Qed.

Lemma one_failing_settle ps j e st i :
  ps !! j = Some (Rejected e) →
  one_failing j st → one_failing j (Promise_all_settle ps st i).
Proof.
  intros Hj [Hslot Hcount Hout]. unfold Promise_all_settle.
  destruct (outcome st) eqn:Eout; [by split; rewrite ?Eout|by split; rewrite ?Eout|].
  destruct (ps !! i) as [[x|e'|]|] eqn:Ei; try (by split; rewrite ?Eout).
  destruct (values st !! i) as [[y|]|] eqn:Ev; try (by split; rewrite ?Eout).
  assert (Hne : i ≠ j) by (intros ->; congruence).
  pose proof (empty_slots_insert _ _ x Ev) as Hins.
  assert (Hj' : <[i:=Some x]> (values st) !! j = Some None)
    by (by rewrite list_lookup_insert_ne).
  pose proof (empty_slots_lookup _ _ Hj') as Hpos.
  split; cbn [values remainingElementsCount outcome].
  - done.
  - lia.
  - intros l. destruct (remainingElementsCount st - 1) eqn:Er; [lia|done].
Qed.

Lemma one_failing_rejects ps j e st :
  ps !! j = Some (Rejected e) →
  one_failing j st →
  ∃ e', outcome (Promise_all_settle ps st j) = Rejected e'.
Proof.
  intros Hj [Hslot Hcount Hout]. unfold Promise_all_settle.
  destruct (outcome st) as [l|e'|] eqn:Eout.
  - by destruct (Hout l).
  - exists e'. by rewrite Eout.
  - rewrite Hj. by exists e.
Qed.

(** When one element is rejected the promise is never fulfilled, and it
    is rejected once that element has settled. *)
Lemma Promise_all_rejects ps j e (order : list nat) :
  ps !! j = Some (Rejected e) →
  (∀ l, Promise_all ps order ≠ Fulfilled l)
  ∧ (j ∈ order → ∃ e', Promise_all ps order = Rejected e').
Proof.
  intros Hj. unfold Promise_all.
  pose proof (one_failing_start ps j e Hj) as Hst.
  revert Hst. generalize (Promise_all_start ps) as st.
  induction order as [|i order IH]; intros st Hst; cbn [foldl].
  - split; [apply Hst|]. intros Hin. by apply not_elem_of_nil in Hin.
  - pose proof (one_failing_settle ps j e st i Hj Hst) as Hst'.
    destruct (IH _ Hst') as [Hnever Hrej]. split; [done|].
    intros [Heq|Hin]%elem_of_cons; [subst i|by apply Hrej].
    destruct (one_failing_rejects ps j e st Hj Hst) as [e' He'].
    exists e'. rewrite Promise_all_settled; [done|]. by rewrite He'.
Qed.
End promise_all.

Lemma push_button_requests_spec client refs : ∀ buttons log,
  push_button_requests client refs buttons log =
    (log ++ (read ∘ href <$> refs), Fulfilled (buttons ++ (button_promise client <$> refs))).
Proof.
  induction refs as [|ref refs IH]; intros buttons log; cbn.
  - unfold mret, Async_ret. by rewrite !app_nil_r.
  - unfold mbind, Async_bind, client_request. cbn. rewrite IH.
    by rewrite <- !app_assoc.
Qed.

Lemma button_promise_resolves client ref button :
  resolves_to client ref button → button_promise client ref = Fulfilled button.
Proof.
  intros (body & Hreq & Hbody). unfold button_promise. rewrite Hreq. cbn.
  unfold button_of_response. cbn. by rewrite Hbody.
Qed.

(** C6: when the request of every button reference of the group is
    answered by a body that carries a button, and all the requests have
    completed, in whatever order, [getButtonsFromGroup] has issued one read
    per reference and returns those buttons in the order of the references. *)
Theorem getButtonsFromGroup_order (client : LeapClient) (bgroup : ButtonGroup)
    (buttons : list Button) (order : list nat) (log : list Request) :
  Forall2 (resolves_to client) (Buttons bgroup) buttons →
  (∀ i, i < length (Buttons bgroup) → i ∈ order) →
  getButtonsFromGroup client bgroup order log =
    (log ++ (read ∘ href <$> Buttons bgroup), Fulfilled buttons).
Proof.
  intros Hall Hcover.
  unfold getButtonsFromGroup, mbind, Async_bind.
  rewrite push_button_requests_spec. cbn. unfold await. f_equal.
  assert (Hps : button_promise client <$> Buttons bgroup = Fulfilled <$> buttons).
  { clear -Hall. induction Hall as [|ref button refs buttons Hres _ IH]; [done|].
    cbn. by rewrite IH, (button_promise_resolves _ _ _ Hres). }
  rewrite Hps. apply Promise_all_ordered.
  intros i Hi. apply Hcover. by rewrite (Forall2_length _ _ _ Hall).
Qed.

(** C7: when the request of one button reference of the group fails, by a
    failure of the transport or by an answer that carries no button,
    [getButtonsFromGroup] never returns a list, whatever has completed so
    far, and it fails once the failing request has completed. *)
Theorem getButtonsFromGroup_all_or_nothing (client : LeapClient) (bgroup : ButtonGroup)
    (order : list nat) (log : list Request) (j : nat) (ref : Href) (e : Err) :
  Buttons bgroup !! j = Some ref →
  button_promise client ref = Rejected e →
  (∀ buttons, snd (getButtonsFromGroup client bgroup order log) ≠ Fulfilled buttons)
  ∧ (j ∈ order → ∃ e', snd (getButtonsFromGroup client bgroup order log) = Rejected e').
Proof.
  intros Hj He.
  unfold getButtonsFromGroup, mbind, Async_bind.
  rewrite push_button_requests_spec. cbn.
  apply (Promise_all_rejects _ j e).
  rewrite list_lookup_fmap, Hj. cbn. by rewrite He.
Qed.

Lemma getButtonsFromGroup_order_witness :
  Forall2 (resolves_to (keypad_client false)) (Buttons keypad)
    [button_101; button_102; button_103]
  ∧ getButtonsFromGroup (keypad_client false) keypad [2; 0; 1] [] =
    ([read "/button/101"; read "/button/102"; read "/button/103"],
     Fulfilled [button_101; button_102; button_103]).
Proof.
  assert (H : Forall2 (resolves_to (keypad_client false)) (Buttons keypad)
                [button_101; button_102; button_103]).
  { repeat constructor.
    - by exists (OneButtonDefinition button_101).
    - by exists (OneButtonDefinition button_102).
    - by exists (OneButtonDefinition button_103). }
  split; [exact H|].
  apply (getButtonsFromGroup_order (keypad_client false) keypad
           [button_101; button_102; button_103] [2; 0; 1] [] H).
  intros [|[|[|i]]] Hi; cbn in Hi; [| | |lia]; repeat constructor.
Defined.

Lemma getButtonsFromGroup_all_or_nothing_witness :
  Buttons keypad !! 1 = Some {| href := "/button/102" |}
  ∧ button_promise (keypad_client true) {| href := "/button/102" |} =
      Rejected (TransportError "request failed")
  ∧ ∃ e', snd (getButtonsFromGroup (keypad_client true) keypad [2; 0; 1] []) = Rejected e'.
Proof.
  split; [reflexivity|]. split; [reflexivity|].
  apply (getButtonsFromGroup_all_or_nothing (keypad_client true) keypad [2; 0; 1] [] 1
           {| href := "/button/102" |} (TransportError "request failed")
           eq_refl eq_refl).
  repeat constructor.
Defined.

(** * Further properties of the session *)

(** X1: in every reachable session at most one cycle of the ping loop is
    outstanding: a pending ping timer is the one held in [pingLooper] and
    runs for [PING_INTERVAL_MS], at most one race is open, and while a race
    is open no ping timer is pending. *)
Theorem one_cycle_outstanding (b : SmartBridge) :
  reachable b →
  (∀ h t, timers b !! h = Some t → callback t = PingTimeoutCallback →
          h = pingLooper b ∧ delay t = PING_INTERVAL_MS)
  ∧ (∀ r rc r' rc', races b !! r = Some rc → settled rc = false →
                    races b !! r' = Some rc' → settled rc' = false → r = r')
  ∧ (∀ r rc, races b !! r = Some rc → settled rc = false → no_ping_timer b).
Proof.
  intros Hb%reachable_Inv. destruct Hb as [_ _ _ _ H5 _ _ H8 H9]. auto.
Qed.

Lemma one_cycle_outstanding_witness :
  reachable (run (new_SmartBridge "bridge") [TimerFires 0])
  ∧ no_ping_timer (run (new_SmartBridge "bridge") [TimerFires 0]).
Proof.
  assert (Hb : reachable (run (new_SmartBridge "bridge") [TimerFires 0]))
    by (by exists "bridge", [TimerFires 0]).
  split; [exact Hb|].
  destruct (one_cycle_outstanding _ Hb) as (_ & _ & H).
  apply (H 1 {| settled := false; ping_done := false |}); vm_compute; reflexivity.
Defined.

(** X2: in every reachable session an open race has its deadline armed: the
    timeout timer created with it is pending, for [PING_TIMEOUT_MS]. *)
Theorem open_race_has_deadline (b : SmartBridge) (r : nat) (rc : Race) :
  reachable b →
  races b !! r = Some rc → settled rc = false →
  timers b !! r = Some {| delay := PING_TIMEOUT_MS; callback := RaceTimeoutCallback r |}.
Proof.
  intros Hb%reachable_Inv. apply (inv_deadline _ Hb).
Qed.

Lemma open_race_has_deadline_witness :
  reachable (run (new_SmartBridge "bridge") [TimerFires 0])
  ∧ timers (run (new_SmartBridge "bridge") [TimerFires 0]) !! 1 =
      Some {| delay := PING_TIMEOUT_MS; callback := RaceTimeoutCallback 1 |}.
Proof.
  assert (Hb : reachable (run (new_SmartBridge "bridge") [TimerFires 0]))
    by (by exists "bridge", [TimerFires 0]).
  split; [exact Hb|].
  apply (open_race_has_deadline _ 1 {| settled := false; ping_done := false |} Hb);
    vm_compute; reflexivity.
Defined.

(** X3: when the timer of the ping loop fires in a reachable session, one
    request is sent, the ping; a race is opened with its timeout armed for
    [PING_TIMEOUT_MS]; and no ping timer is pending while it runs. *)
Theorem ping_timer_starts_cycle (b : SmartBridge) :
  reachable b →
  is_Some (timers b !! pingLooper b) →
  let b' := step b (TimerFires (pingLooper b)) in
  let r := next_handle b in
  effects b' = effects b ++ [ClientRequest ping_request]
  ∧ races b' !! r = Some {| settled := false; ping_done := false |}
  ∧ timers b' !! r = Some {| delay := PING_TIMEOUT_MS; callback := RaceTimeoutCallback r |}
  ∧ no_ping_timer b'.
Proof. apply pingLoop_dispatch. Qed.

Lemma ping_timer_starts_cycle_witness :
  reachable (new_SmartBridge "bridge")
  ∧ is_Some (timers (new_SmartBridge "bridge") !! pingLooper (new_SmartBridge "bridge"))
  ∧ effects (step (new_SmartBridge "bridge") (TimerFires 0)) =
      effects (new_SmartBridge "bridge") ++ [ClientRequest ping_request].
Proof.
  assert (Hb : reachable (new_SmartBridge "bridge")) by (by exists "bridge", []).
  assert (Ht : is_Some (timers (new_SmartBridge "bridge")
                          !! pingLooper (new_SmartBridge "bridge")))
    by (vm_compute; eauto).
  split; [exact Hb|]. split; [exact Ht|].
  exact (proj1 (ping_timer_starts_cycle _ Hb Ht)).
Defined.

(** A ping that resolves while its race is open wins the race. *)
Lemma race_won b r response :
  races b !! r = Some {| settled := false; ping_done := false |} →
  step b (PingResolves r response) =
    race_then (with_races <[r := {| settled := true; ping_done := true |}]>
                 (with_races <[r := {| settled := false; ping_done := true |}]> b)).
Proof.
  intros Hr. cbn. unfold ping_completes. rewrite Hr; cbn.
  unfold settle_race; cbn. by rewrite lookup_insert_eq.
Qed.

Lemma deadline_order_app evs evs' : ∀ b,
  deadline_order b evs → deadline_order (run b evs) evs' →
  deadline_order b (evs ++ evs').
Proof.
  induction evs as [|ev evs IH]; intros b H1 H2; [done|].
  destruct H1 as [Hev H1]. split; [done|]. by apply IH.
Qed.

(** One cycle whose ping is answered in time, from a session in which the
    ping timer is the only timer pending. *)
Lemma answered_ping_cycle b response :
  reachable b →
  timers b = {[ pingLooper b := ping_timer ]} →
  let cycle := [TimerFires (pingLooper b);
                PingResolves (next_handle b) response;
                TimerFires (next_handle b)] in
  deadline_order b cycle
  ∧ effects (run b cycle) = effects b ++ [ClientRequest ping_request]
  ∧ timers (run b cycle) = {[ pingLooper (run b cycle) := ping_timer ]}
  ∧ reachable (run b cycle).
Proof.
  intros Hb Ht. cbv zeta.
  pose proof (inv_pingLooper_handle _ (reachable_Inv _ Hb)) as Hlt.
  assert (Hne : pingLooper b ≠ next_handle b) by lia.
  assert (Hpl : timers b !! pingLooper b = Some ping_timer)
    by (rewrite Ht; apply lookup_singleton_eq).
  change (run b [TimerFires (pingLooper b); PingResolves (next_handle b) response;
                 TimerFires (next_handle b)])
    with (step (step (step b (TimerFires (pingLooper b)))
                  (PingResolves (next_handle b) response))
            (TimerFires (next_handle b))).
  cbn [deadline_order].
  assert (Hb3 : reachable (step (step (step b (TimerFires (pingLooper b)))
                  (PingResolves (next_handle b) response))
            (TimerFires (next_handle b)))) by (by do 3 apply reachable_step).
  revert Hb3.
  (* the timer of the ping loop fires *)
  assert (E1 : step b (TimerFires (pingLooper b)) =
               pingLoop (clearTimeout (pingLooper b) (with_timers (delete (pingLooper b)) b))).
  { cbn. by rewrite Hpl. }
  remember (step b (TimerFires (pingLooper b))) as b1 eqn:Eb1. clear Eb1.
  assert (Ht1 : timers b1 = {[ next_handle b :=
                  {| delay := PING_TIMEOUT_MS; callback := RaceTimeoutCallback (next_handle b) |} ]}).
  { rewrite E1; cbn. rewrite Ht, delete_singleton_eq, delete_empty. apply insert_empty. }
  assert (Hr1 : races b1 !! next_handle b = Some {| settled := false; ping_done := false |}).
  { rewrite E1; cbn. apply lookup_insert_eq. }
  assert (Hp1 : pingLooper b1 = pingLooper b) by (by rewrite E1).
  assert (Hn1 : next_handle b1 = S (next_handle b)) by (by rewrite E1).
  assert (He1 : effects b1 = effects b ++ [ClientRequest ping_request]) by (by rewrite E1).
  clear E1.
  (* the ping is answered *)
  pose proof (race_won b1 _ response Hr1) as E2.
  remember (step b1 (PingResolves (next_handle b) response)) as b2 eqn:Eb2. clear Eb2.
  assert (Ht2 : timers b2 = <[ S (next_handle b) := ping_timer ]> (timers b1)).
  { rewrite E2. unfold race_then, _setPingTimeout, clearTimeout; cbn.
    rewrite Hn1, Hp1, Ht1. f_equal. by apply delete_singleton_ne. }
  assert (Hr2 : races b2 !! next_handle b = Some {| settled := true; ping_done := true |}).
  { rewrite E2; cbn. apply lookup_insert_eq. }
  assert (Hp2 : pingLooper b2 = S (next_handle b)) by (by rewrite E2; cbn; rewrite Hn1).
  assert (He2 : effects b2 = effects b1) by (by rewrite E2).
  clear E2.
  assert (Htm2 : timers b2 !! next_handle b =
            Some {| delay := PING_TIMEOUT_MS; callback := RaceTimeoutCallback (next_handle b) |}).
  { rewrite Ht2, Ht1, lookup_insert_ne by lia. apply lookup_singleton_eq. }
  (* its timeout fires *)
  assert (E3 : step b2 (TimerFires (next_handle b)) = with_timers (delete (next_handle b)) b2).
  { cbn. rewrite Htm2; cbn. unfold settle_race; cbn. by rewrite Hr2. }
  intros Hb3.
  split; [|split; [|split]].
  - split; [|split; [done|split; [|done]]].
    + split; [by rewrite Hpl|]. intros t h' t' _ Hh' Hneq.
      rewrite Ht, lookup_singleton_ne in Hh' by done. done.
    + split; [by rewrite Htm2|]. intros t h' t' Hh Hh' Hneq.
      rewrite Htm2 in Hh. injection Hh as <-.
      rewrite Ht2, Ht1 in Hh'.
      destruct (decide (h' = S (next_handle b))) as [->|Hneq'].
      * rewrite lookup_insert_eq in Hh'. injection Hh' as <-. split; [lia|done].
      * rewrite lookup_insert_ne, lookup_singleton_ne in Hh' by done. done.
  - rewrite E3; cbn. by rewrite He2, He1.
  - rewrite E3; cbn. rewrite Hp2, Ht2, Ht1.
    rewrite delete_insert_ne by lia. by rewrite delete_singleton_eq.
  - exact Hb3.
Qed.

(** X4: starting from a reachable session in which the ping timer is the
    only timer pending (as after the constructor), any number of cycles in
    which the ping is answered before the timeout, every timer firing when it
    is the one due first, sends one ping per cycle and nothing else: the
    transport is never closed, nothing is emitted, and at the end the ping
    timer is again the only timer pending. *)
Theorem answered_pings_keep_session_open (responses : list Response) (b : SmartBridge) :
  reachable b →
  timers b = {[ pingLooper b := ping_timer ]} →
  let evs := answered_pings responses b in
  deadline_order b evs
  ∧ effects (run b evs) =
      effects b ++ replicate (length responses) (ClientRequest ping_request)
  ∧ timers (run b evs) = {[ pingLooper (run b evs) := ping_timer ]}.
Proof.
  revert b. induction responses as [|response rest IH]; intros b Hb Ht; cbv zeta.
  - cbn. by rewrite app_nil_r.
  - destruct (answered_ping_cycle b response Hb Ht) as (Hd & He & Ht' & Hb').
    cbn [answered_pings length replicate]. cbv zeta.
    destruct (IH _ Hb' Ht') as (Hd'' & He'' & Ht'').
    rewrite run_app. split; [by apply deadline_order_app|]. split; [|exact Ht''].
    rewrite He'', He, <- app_assoc. reflexivity.
Qed.

Lemma answered_pings_keep_session_open_witness :
  reachable (new_SmartBridge "bridge")
  ∧ timers (new_SmartBridge "bridge") =
      {[ pingLooper (new_SmartBridge "bridge") := ping_timer ]}
  ∧ answered_pings [some_response; some_response] (new_SmartBridge "bridge") =
      [TimerFires 0; PingResolves 1 some_response; TimerFires 1;
       TimerFires 2; PingResolves 3 some_response; TimerFires 3]
  ∧ client_closes (run (new_SmartBridge "bridge")
                     (answered_pings [some_response; some_response]
                        (new_SmartBridge "bridge"))) = 0.
Proof.
  assert (Hb : reachable (new_SmartBridge "bridge")) by (by exists "bridge", []).
  assert (Ht : timers (new_SmartBridge "bridge") =
               {[ pingLooper (new_SmartBridge "bridge") := ping_timer ]})
    by reflexivity.
  split; [exact Hb|]. split; [exact Ht|]. split; [vm_compute; reflexivity|].
  unfold client_closes.
  rewrite (proj1 (proj2 (answered_pings_keep_session_open
                    [some_response; some_response] _ Hb Ht))).
  reflexivity.
Defined.

(** X5: once the timeout has won a race, the late outcome of its ping,
    answer or failure, is discarded: nothing is logged, no timer is armed or
    cancelled, and the timer handle of the session stays as it is. *)
Theorem late_ping_outcome_discarded (b : SmartBridge) (r : nat) (ev : Event) :
  reachable b →
  races b !! r = Some {| settled := false; ping_done := false |} →
  (∃ response, ev = PingResolves r response) ∨ (∃ e, ev = PingRejects r e) →
  let b1 := step b (TimerFires r) in
  let b2 := step b1 ev in
  effects b2 = effects b1
  ∧ timers b2 = timers b1
  ∧ pingLooper b2 = pingLooper b1
  ∧ next_handle b2 = next_handle b1.
Proof.
  intros Hb Hr Hev. cbv zeta.
  pose proof (inv_deadline _ (reachable_Inv _ Hb) _ _ Hr eq_refl) as Ht.
  assert (E1 : step b (TimerFires r) =
               race_catch (with_races <[r := {| settled := true; ping_done := false |}]>
                             (with_timers (delete r) b))).
  { cbn. rewrite Ht; cbn. unfold settle_race; cbn. by rewrite Hr. }
  rewrite E1.
  destruct Hev as [[response ->]|[e ->]]; cbn; unfold ping_completes; cbn;
    rewrite lookup_insert_eq; cbn; unfold settle_race; cbn;
    rewrite lookup_insert_eq; cbn; done.
Qed.

Lemma late_ping_outcome_discarded_witness :
  let b := run (new_SmartBridge "bridge") [TimerFires 0] in
  reachable b
  ∧ races b !! 1 = Some {| settled := false; ping_done := false |}
  ∧ effects (step (step b (TimerFires 1)) (PingResolves 1 some_response)) =
      effects (step b (TimerFires 1)).
Proof.
  cbv zeta.
  assert (Hb : reachable (run (new_SmartBridge "bridge") [TimerFires 0]))
    by (by exists "bridge", [TimerFires 0]).
  assert (Hr : races (run (new_SmartBridge "bridge") [TimerFires 0]) !! 1 =
               Some {| settled := false; ping_done := false |})
    by (vm_compute; reflexivity).
  split; [exact Hb|]. split; [exact Hr|].
  refine (proj1 (late_ping_outcome_discarded _ 1 (PingResolves 1 some_response) Hb Hr _)).
  left. by exists some_response.
Defined.

(** A stopped ping loop sends nothing and arms nothing. *)
Lemma stopped_step_quiet b ev :
  ping_loop_stopped b →
  requests_sent (step b ev) = requests_sent b ∧ next_handle (step b ev) = next_handle b.
Proof.
  intros [Ht Hr]. unfold no_ping_timer, no_open_race, map_Forall in *.
  unfold requests_sent.
  destruct ev as [h|r resp|r e|resp| |]; [| | |emit_ind|emit_ind|]; cbn;
    rewrite ?omap_app; cbn; rewrite ?app_nil_r; try done.
  - destruct (timers b !! h) as [[d [|r]]|] eqn:Hh; cbn; [|  |done].
    + by destruct (Ht _ _ Hh).
    + unfold settle_race; cbn.
      destruct (races b !! r) as [[st pd]|] eqn:Er; cbn; [|done].
      pose proof (Hr _ _ Er) as Hs; cbn in Hs; subst st; cbn. done.
  - unfold ping_completes.
    destruct (races b !! r) as [[st [|]]|] eqn:Er; cbn; try done.
    pose proof (Hr _ _ Er) as Hs; cbn in Hs; subst st.
    unfold settle_race; cbn. rewrite lookup_insert_eq; cbn. done.
  - unfold ping_completes.
    destruct (races b !! r) as [[st [|]]|] eqn:Er; cbn; try done.
    pose proof (Hr _ _ Er) as Hs; cbn in Hs; subst st.
    unfold settle_race; cbn. rewrite lookup_insert_eq; cbn. done.
Qed.

Lemma stopped_run_quiet evs : ∀ b,
  ping_loop_stopped b →
  ping_loop_stopped (run b evs)
  ∧ requests_sent (run b evs) = requests_sent b
  ∧ next_handle (run b evs) = next_handle b.
Proof.
  induction evs as [|ev evs IH]; intros b Hb; [done|].
  change (run b (ev :: evs)) with (run (step b ev) evs).
  destruct (IH _ (ping_loop_stopped_step b ev Hb)) as (Hs & Hq & Hn).
  destruct (stopped_step_quiet b ev Hb) as [Hq' Hn'].
  split; [done|]. split; congruence.
Qed.

(** X6: a ping loop that has stopped (no ping timer pending, no race open)
    never starts again: whatever events follow, it stays stopped, the session
    sends no further request and calls [setTimeout] no more. *)
Theorem stopped_ping_loop_stays_stopped (b : SmartBridge) (evs : list Event) :
  ping_loop_stopped b →
  ping_loop_stopped (run b evs)
  ∧ requests_sent (run b evs) = requests_sent b
  ∧ next_handle (run b evs) = next_handle b.
Proof. apply stopped_run_quiet. Qed.

(** A session closed while no race is open has its ping loop stopped. *)
Lemma close_idle_stops b : reachable b → no_open_race b → ping_loop_stopped (close b).
Proof.
  intros Hb Hr. split; [by apply close_cancels_ping_timer|exact Hr].
Qed.

Lemma stopped_ping_loop_stays_stopped_witness :
  ping_loop_stopped (close (new_SmartBridge "bridge"))
  ∧ requests_sent (run (close (new_SmartBridge "bridge"))
                     [TimerFires 0; ClientDisconnected; TimerFires 1]) =
    requests_sent (close (new_SmartBridge "bridge")).
Proof.
  assert (Hs : ping_loop_stopped (close (new_SmartBridge "bridge"))).
  { apply close_idle_stops; [by exists "bridge", []|]. apply map_Forall_empty. }
  split; [exact Hs|].
  exact (proj1 (proj2 (stopped_ping_loop_stays_stopped _ _ Hs))).
Defined.

(** X7: [close] between two cycles is final: when a reachable session is
    closed while no race is open, the ping timer is cancelled and, whatever
    events follow, no ping is ever sent again and no timer is armed. *)
Theorem close_between_cycles_is_final (b : SmartBridge) (evs : list Event) :
  reachable b →
  no_open_race b →
  ping_loop_stopped (run (close b) evs)
  ∧ requests_sent (run (close b) evs) = requests_sent b
  ∧ next_handle (run (close b) evs) = next_handle b.
Proof.
  intros Hb Hr.
  destruct (stopped_run_quiet evs _ (close_idle_stops b Hb Hr)) as (Hs & Hq & Hn).
  split; [done|]. split; [|done].
  rewrite Hq. unfold requests_sent; cbn. rewrite omap_app; cbn. by rewrite app_nil_r.
Qed.

Lemma close_between_cycles_is_final_witness :
  reachable (new_SmartBridge "bridge")
  ∧ no_open_race (new_SmartBridge "bridge")
  ∧ requests_sent (run (close (new_SmartBridge "bridge")) [TimerFires 0]) =
    requests_sent (new_SmartBridge "bridge").
Proof.
  assert (Hb : reachable (new_SmartBridge "bridge")) by (by exists "bridge", []).
  assert (Hr : no_open_race (new_SmartBridge "bridge")) by apply map_Forall_empty.
  split; [exact Hb|]. split; [exact Hr|].
  exact (proj1 (proj2 (close_between_cycles_is_final _ [TimerFires 0] Hb Hr))).
Defined.

Lemma step_requests_sent b ev :
  ∃ l, requests_sent (step b ev) = requests_sent b ++ l
       ∧ Forall (λ r, r = ping_request) l.
Proof.
  unfold requests_sent.
  step_cases b ev; rewrite ?omap_app; cbn;
    first [ by exists [ping_request]; split; [|repeat constructor]
          | by exists []; rewrite ?app_nil_r
          | by destruct Hb' as (l & Hl & HF); exists l; rewrite ?app_nil_r ].
Qed.

(** X8: the only request a session sends on its own is the ping: whatever
    events a session goes through, every request it has sent is the read of
    [/server/1/status/ping]. *)
Theorem session_sends_only_pings (id : string) (evs : list Event) :
  Forall (λ r, r = ping_request) (requests_sent (run (new_SmartBridge id) evs)).
Proof.
  assert (G : ∀ evs b, Forall (λ r, r = ping_request) (requests_sent b) →
              Forall (λ r, r = ping_request) (requests_sent (run b evs))).
  { clear. induction evs as [|ev evs IH]; intros b Hb; [done|].
    change (run b (ev :: evs)) with (run (step b ev) evs). apply IH.
    destruct (step_requests_sent b ev) as (l & -> & Hl). by apply Forall_app. }
  apply G. constructor.
Qed.

Lemma step_listeners_registered b ev :
  listeners_registered (step b ev) = listeners_registered b.
Proof.
  unfold listeners_registered.
  step_cases b ev; rewrite ?omap_app; cbn; by rewrite ?app_nil_r.
Qed.

(** X9: the listeners are put on the client once, by the constructor, and
    never again: whatever events a session goes through, it has registered
    [_handleUnsolicited] for [unsolicited] and [_handleDisconnect] for
    [disconnected], once each and in this order. *)
Theorem listeners_registered_once (id : string) (evs : list Event) :
  listeners_registered (run (new_SmartBridge id) evs) =
    [(unsolicited, _handleUnsolicited_bound); (disconnected, _handleDisconnect_bound)].
Proof.
  assert (G : ∀ evs b, listeners_registered (run b evs) = listeners_registered b).
  { clear. induction evs as [|ev evs IH]; intros b; [done|].
    change (run b (ev :: evs)) with (run (step b ev) evs).
    by rewrite IH, step_listeners_registered. }
  rewrite G. reflexivity.
Qed.

Lemma step_emitted b ev :
  wired b →
  emitted (step b ev) =
  emitted b ++
    match ev with
    | ClientUnsolicited response => [EmitUnsolicited (bridgeID b) response]
    | _ => []
    end.
Proof.
  intros Hw. unfold emitted.
  step_cases_wired b ev Hw; rewrite ?omap_app; cbn; by rewrite ?app_nil_r.
Qed.

(** X10: a session emits nothing but relays: whatever events it goes
    through, the notifications it has emitted are, in order, one
    [unsolicited] per message the transport delivered, carrying the
    identifier given to the constructor and the message as received. *)
Theorem session_emits_only_relays (id : string) (evs : list Event) :
  emitted (run (new_SmartBridge id) evs) =
    EmitUnsolicited id <$> unsolicited_delivered evs.
Proof.
  assert (G : ∀ evs b, wired b → emitted (run b evs) =
            emitted b ++ (EmitUnsolicited (bridgeID b) <$> unsolicited_delivered evs)).
  { clear. induction evs as [|ev evs IH]; intros b Hw.
    - cbn. by rewrite app_nil_r.
    - change (run b (ev :: evs)) with (run (step b ev) evs).
      rewrite IH by (by apply wired_step).
      rewrite step_emitted, step_bridgeID, <- app_assoc by done.
      f_equal. unfold unsolicited_delivered. by destruct ev. }
  rewrite G by apply wired_new. reflexivity.
Qed.

(** * Further properties of the command layer *)

Ltac run_async := unfold mbind, Async_bind, mret, Async_ret, client_request, await, throw; cbn.

(** X11: the reading operations add nothing to a failure of the transport:
    when the request is rejected the operation is rejected with the same
    error, and when the request never resolves the operation never settles;
    in both cases the one request has been issued. *)
Theorem request_failure_forwarded (client : LeapClient) (device : Device)
    (log : list Request) :
  (is_Fulfilled (request client (read "/device/1")) = false →
   getBridgeInfo client log =
     (log ++ [read "/device/1"], forward (request client (read "/device/1"))))
  ∧ (is_Fulfilled (request client (read "/device")) = false →
     getDeviceInfo client log =
       (log ++ [read "/device"], forward (request client (read "/device"))))
  ∧ (∀ zone zones, LocalZones device = zone :: zones →
     is_Fulfilled (request client (read (href zone +:+ "/status"))) = false →
     readBlindsTilt client device log =
       (log ++ [read (href zone +:+ "/status")],
        forward (request client (read (href zone +:+ "/status")))))
  ∧ (∀ group groups, ButtonGroups device = group :: groups →
     is_Fulfilled (request client (read (href group))) = false →
     getButtonGroupFromDevice client device log =
       (log ++ [read (href group)], forward (request client (read (href group))))).
Proof.
  repeat split.
  - intros H. unfold getBridgeInfo. run_async. fold (read "/device/1").
    by destruct (request client (read "/device/1")).
  - intros H. unfold getDeviceInfo. run_async. fold (read "/device").
    by destruct (request client (read "/device")).
  - intros zone zones Hz H. unfold readBlindsTilt. rewrite Hz. run_async.
    fold (read (href zone +:+ "/status")).
    by destruct (request client (read (href zone +:+ "/status"))).
  - intros group groups Hg H. unfold getButtonGroupFromDevice. rewrite Hg. run_async.
    fold (read (href group)).
    by destruct (request client (read (href group))).
Qed.

Lemma request_failure_forwarded_witness :
  getBridgeInfo (down (TransportError "socket closed")) [] =
    ([read "/device/1"], Rejected (TransportError "socket closed"))
  ∧ readBlindsTilt (down (TransportError "socket closed")) living_room_shade [] =
    ([read "/zone/1/status"], Rejected (TransportError "socket closed")).
Proof.
  destruct (request_failure_forwarded (down (TransportError "socket closed"))
              living_room_shade []) as (H1 & _ & H3 & _).
  split; [exact (H1 eq_refl)|].
  exact (H3 {| href := "/zone/1" |} [] eq_refl eq_refl).
Defined.

(** X12: a response without a body is not told apart from a wrong shape by
    an error of the operation: reading the discriminant of the missing body
    raises the run-time TypeError, in every operation that reads one. *)
Theorem response_without_body_is_type_error (client : LeapClient) (device : Device)
    (log : list Request) :
  (request client (read "/device/1") = Fulfilled {| Body := None |} →
   snd (getBridgeInfo client log) =
     Rejected (TypeError "Cannot read properties of undefined (reading 'Device')"))
  ∧ (request client (read "/device") = Fulfilled {| Body := None |} →
     snd (getDeviceInfo client log) =
       Rejected (TypeError "Cannot read properties of undefined (reading 'Devices')"))
  ∧ (∀ zone zones, LocalZones device = zone :: zones →
     request client (read (href zone +:+ "/status")) = Fulfilled {| Body := None |} →
     snd (readBlindsTilt client device log) =
       Rejected (TypeError "Cannot read properties of undefined (reading 'ZoneStatus')"))
  ∧ (∀ group groups, ButtonGroups device = group :: groups →
     request client (read (href group)) = Fulfilled {| Body := None |} →
     snd (getButtonGroupFromDevice client device log) =
       Rejected (TypeError "Cannot read properties of undefined (reading 'ButtonGroup')"))
  ∧ button_of_response {| Body := None |} =
      Rejected (TypeError "Cannot read properties of undefined (reading 'Button')").
Proof.
  repeat split.
  - intros H. unfold getBridgeInfo. run_async. fold (read "/device/1"). by rewrite H.
  - intros H. unfold getDeviceInfo. run_async. fold (read "/device"). by rewrite H.
  - intros zone zones Hz H. unfold readBlindsTilt. rewrite Hz. run_async.
    fold (read (href zone +:+ "/status")). by rewrite H.
  - intros group groups Hg H. unfold getButtonGroupFromDevice. rewrite Hg. run_async.
    fold (read (href group)). by rewrite H.
Qed.

Lemma response_without_body_is_type_error_witness :
  snd (getDeviceInfo (always {| Body := None |}) []) =
    Rejected (TypeError "Cannot read properties of undefined (reading 'Devices')")
  ∧ snd (getButtonGroupFromDevice (always {| Body := None |}) pico_remote []) =
    Rejected (TypeError "Cannot read properties of undefined (reading 'ButtonGroup')").
Proof.
  destruct (response_without_body_is_type_error (always {| Body := None |})
              pico_remote []) as (_ & H2 & _ & H4 & _).
  split; [exact (H2 eq_refl)|].
  exact (H4 {| href := "/buttongroup/2" |} [] eq_refl eq_refl).
Defined.

(** X13: the operations that check the shape fail with the error they
    raise themselves when the body of the answer lacks the discriminant they
    expect: [getBridgeInfo], [getDeviceInfo], [getButtonGroupFromDevice], and
    the handler of each request of [getButtonsFromGroup]. *)
Theorem missing_discriminant_is_explicit_error (client : LeapClient) (device : Device)
    (body : BodyType) (log : list Request) :
  (request client (read "/device/1") = Fulfilled {| Body := Some body |} →
   body_Device body = None →
   snd (getBridgeInfo client log) =
     Rejected (Error "Got bad response to bridge info request"))
  ∧ (request client (read "/device") = Fulfilled {| Body := Some body |} →
     body_Devices body = None →
     snd (getDeviceInfo client log) =
       Rejected (Error "got bad response to all device list request"))
  ∧ (∀ group groups, ButtonGroups device = group :: groups →
     request client (read (href group)) = Fulfilled {| Body := Some body |} →
     body_ButtonGroup body = None →
     snd (getButtonGroupFromDevice client device log) =
       Rejected (Error "unable to get button group"))
  ∧ (body_Button body = None →
     button_of_response {| Body := Some body |} = Rejected (Error "unable to get button")).
Proof.
  repeat split.
  - apply getBridgeInfo_bad_shape.
  - apply getDeviceInfo_bad_shape.
  - intros group groups. apply getButtonGroupFromDevice_bad_shape.
  - apply button_of_response_bad_shape.
Qed.

Lemma missing_discriminant_is_explicit_error_witness :
  snd (getBridgeInfo (always some_response) []) =
    Rejected (Error "Got bad response to bridge info request")
  ∧ snd (getButtonGroupFromDevice (always some_response) pico_remote []) =
    Rejected (Error "unable to get button group").
Proof.
  destruct (missing_discriminant_is_explicit_error (always some_response)
              pico_remote empty_body []) as (H1 & _ & H3 & _).
  split; [exact (H1 eq_refl eq_refl)|].
  exact (H3 {| href := "/buttongroup/2" |} [] eq_refl eq_refl eq_refl).
Defined.

(** X14: the first zone and the first button group of a device are taken
    without a check: on a device that has none, [setBlindsTilt],
    [readBlindsTilt] and [getButtonGroupFromDevice] fail with the run-time
    TypeError of reading [href] of [undefined], and no request is sent. *)
Theorem device_without_reference_sends_nothing (client : LeapClient) (device : Device)
    (value : number) (log : list Request) :
  (LocalZones device = [] →
   setBlindsTilt client device value log =
     (log, Rejected (TypeError "Cannot read properties of undefined (reading 'href')"))
   ∧ readBlindsTilt client device log =
     (log, Rejected (TypeError "Cannot read properties of undefined (reading 'href')")))
  ∧ (ButtonGroups device = [] →
     getButtonGroupFromDevice client device log =
       (log, Rejected (TypeError "Cannot read properties of undefined (reading 'href')"))).
Proof.
  split.
  - intros Hz. unfold setBlindsTilt, readBlindsTilt. by rewrite Hz.
  - intros Hg. unfold getButtonGroupFromDevice. by rewrite Hg.
Qed.

Lemma device_without_reference_sends_nothing_witness :
  LocalZones pico_remote = []
  ∧ ButtonGroups living_room_shade = []
  ∧ fst (readBlindsTilt (always some_response) pico_remote []) = []
  ∧ fst (getButtonGroupFromDevice (always some_response) living_room_shade []) = [].
Proof.
  split; [reflexivity|]. split; [reflexivity|].
  destruct (device_without_reference_sends_nothing (always some_response) pico_remote
              NaN []) as [H1 _].
  destruct (device_without_reference_sends_nothing (always some_response)
              living_room_shade NaN []) as [_ H2].
  destruct (H1 eq_refl) as [_ Hr]. rewrite Hr, (H2 eq_refl). by split.
Defined.

(** X15: [getButtonsFromGroup] sends all its requests before it waits: one
    read per button reference, in the order of the references, whatever the
    answers are and whichever fail. *)
Theorem getButtonsFromGroup_sends_all_requests (client : LeapClient) (bgroup : ButtonGroup)
    (order : list nat) (log : list Request) :
  fst (getButtonsFromGroup client bgroup order log) =
    log ++ (read ∘ href <$> Buttons bgroup).
Proof.
  unfold getButtonsFromGroup, mbind, Async_bind.
  by rewrite push_button_requests_spec.
Qed.

Section promise_all_more.
Context {A : Type}.
Implicit Types (ps : list (Promise A)) (st : AllState A).

(** An empty slot stays empty while its element has not settled. *)
Lemma empty_slot_settle ps st i j :
  values st !! i = Some None → j ≠ i →
  values (Promise_all_settle ps st j) !! i = Some None.
Proof.
  intros Hi Hne. unfold Promise_all_settle.
  destruct (outcome st); try done.
  destruct (ps !! j) as [[x|e|]|]; try done.
  destruct (values st !! j) as [[y|]|]; try done.
  cbn. by rewrite list_lookup_insert_ne.
Qed.

Lemma all_ok_empty_slot_pending (xs : list A) st i :
  all_ok xs st → values st !! i = Some None → outcome st = Pending.
Proof.
  intros [_ _ Hcount Hout] Hi. apply empty_slots_lookup in Hi.
  destruct (outcome st); [|done|done].
  destruct Hout as [_ H0]. lia.
Qed.

(** While an element has not settled the promise is pending. *)
Lemma Promise_all_waits (xs : list A) (order : list nat) (i : nat) :
  i < length xs → i ∉ order →
  Promise_all (Fulfilled <$> xs) order = Pending.
Proof.
  intros Hi Hnot. unfold Promise_all.
  assert (Hslot : values (Promise_all_start (Fulfilled <$> xs)) !! i = Some None).
  { cbn. apply lookup_replicate. by rewrite length_fmap. }
  pose proof (all_ok_start xs) as Hok.
  revert Hok Hslot. generalize (Promise_all_start (Fulfilled <$> xs)) as st.
  induction order as [|j order IH]; intros st Hok Hslot; cbn [foldl].
  - by apply (all_ok_empty_slot_pending xs st i).
  - apply not_elem_of_cons in Hnot as [Hne Hnot].
    apply (IH Hnot); [by apply all_ok_settle|apply empty_slot_settle; auto].
Qed.

(** An element that is not rejected does not reject the promise. *)
Lemma settle_not_rejected ps st i :
  outcome st = Pending →
  (∀ e, ps !! i ≠ Some (Rejected e)) →
  ∀ e, outcome (Promise_all_settle ps st i) ≠ Rejected e.
Proof.
  intros Hst Hi e. unfold Promise_all_settle. rewrite Hst.
  destruct (ps !! i) as [[x|e'|]|] eqn:Ei; try (by rewrite Hst).
  - destruct (values st !! i) as [[y|]|]; try (by rewrite Hst).
    cbn. by destruct (remainingElementsCount st - 1).
  - by destruct (Hi e').
Qed.

(** The promise is rejected with the error of the first element to fail. *)
Lemma Promise_all_first_rejection ps (pre post : list nat) (j : nat) (e : Err) :
  ps !! j = Some (Rejected e) →
  Forall (λ i, ∀ e', ps !! i ≠ Some (Rejected e')) pre →
  Promise_all ps (pre ++ j :: post) = Rejected e.
Proof.
  intros Hj Hpre. unfold Promise_all. rewrite foldl_app. cbn [foldl].
  assert (Hst : one_failing j (foldl (Promise_all_settle ps) (Promise_all_start ps) pre)
                ∧ outcome (foldl (Promise_all_settle ps) (Promise_all_start ps) pre) = Pending).
  { assert (H0 : one_failing j (Promise_all_start ps)
                 ∧ outcome (Promise_all_start ps) = Pending).
    { split; [by eapply one_failing_start|].
      cbn. destruct ps; [done|done]. }
    revert H0. generalize (Promise_all_start ps) as st.
    induction Hpre as [|i pre Hi _ IH]; intros st [Hinv Hout]; [done|].
    cbn [foldl]. apply IH.
    pose proof (one_failing_settle ps j e st i Hj Hinv) as Hinv'.
    split; [done|].
    pose proof (settle_not_rejected ps st i Hout Hi) as Hnr.
    destruct (outcome (Promise_all_settle ps st i)) as [l|e'|] eqn:Eo; [|by destruct (Hnr e')|done].
    by destruct (failing_outcome _ _ Hinv' l). }
  destruct Hst as [_ Hout].
  set (st := foldl (Promise_all_settle ps) (Promise_all_start ps) pre) in *.
  assert (Hrej : outcome (Promise_all_settle ps st j) = Rejected e).
  { unfold Promise_all_settle. by rewrite Hout, Hj. }
  rewrite Promise_all_settled; [done|]. by rewrite Hrej.
Qed.
End promise_all_more.

(** X16: [getButtonsFromGroup] returns nothing before the last answer:
    when every request is answered by a button and one of them has not
    completed yet, the operation is still pending; no shorter list is
    returned. *)
Theorem getButtonsFromGroup_waits_for_all (client : LeapClient) (bgroup : ButtonGroup)
    (buttons : list Button) (order : list nat) (i : nat) (log : list Request) :
  Forall2 (resolves_to client) (Buttons bgroup) buttons →
  i < length (Buttons bgroup) → i ∉ order →
  snd (getButtonsFromGroup client bgroup order log) = Pending.
Proof.
  intros Hall Hi Hnot.
  unfold getButtonsFromGroup, mbind, Async_bind.
  rewrite push_button_requests_spec. cbn.
  assert (Hps : button_promise client <$> Buttons bgroup = Fulfilled <$> buttons).
  { clear -Hall. induction Hall as [|ref button refs buttons Hres _ IH]; [done|].
    cbn. by rewrite IH, (button_promise_resolves _ _ _ Hres). }
  rewrite Hps. apply (Promise_all_waits buttons order i); [|done].
  by rewrite <- (Forall2_length _ _ _ Hall).
Qed.

Lemma getButtonsFromGroup_waits_for_all_witness :
  Forall2 (resolves_to (keypad_client false)) (Buttons keypad)
    [button_101; button_102; button_103]
  ∧ snd (getButtonsFromGroup (keypad_client false) keypad [2; 0] []) = Pending.
Proof.
  assert (H : Forall2 (resolves_to (keypad_client false)) (Buttons keypad)
                [button_101; button_102; button_103]).
  { repeat constructor.
    - by exists (OneButtonDefinition button_101).
    - by exists (OneButtonDefinition button_102).
    - by exists (OneButtonDefinition button_103). }
  split; [exact H|].
  apply (getButtonsFromGroup_waits_for_all (keypad_client false) keypad
           [button_101; button_102; button_103] [2; 0] 1 [] H).
  - cbn; lia.
  - intros Hin. repeat (apply elem_of_cons in Hin as [Hin|Hin]; [discriminate|]).
    by apply not_elem_of_nil in Hin.
Defined.

(** X17: [getButtonsFromGroup] fails with the error of the first request
    to fail: when the requests that completed before the one of reference
    [j] did not fail and that one fails with [e], the operation is rejected
    with [e], whatever completes afterwards. *)
Theorem getButtonsFromGroup_first_failure (client : LeapClient) (bgroup : ButtonGroup)
    (pre post : list nat) (j : nat) (ref : Href) (e : Err) (log : list Request) :
  Buttons bgroup !! j = Some ref →
  button_promise client ref = Rejected e →
  Forall (λ i, ∀ ref' e', Buttons bgroup !! i = Some ref' →
                          button_promise client ref' ≠ Rejected e') pre →
  snd (getButtonsFromGroup client bgroup (pre ++ j :: post) log) = Rejected e.
Proof.
  intros Hj He Hpre.
  unfold getButtonsFromGroup, mbind, Async_bind.
  rewrite push_button_requests_spec. cbn.
  apply Promise_all_first_rejection.
  - rewrite list_lookup_fmap, Hj. cbn. by rewrite He.
  - eapply Forall_impl; [exact Hpre|]. cbn. intros i Hi e'.
    rewrite list_lookup_fmap.
    destruct (Buttons bgroup !! i) as [ref'|] eqn:Ei; cbn; [|done].
    intros [= Heq]. by apply (Hi ref' e').
Qed.

Lemma getButtonsFromGroup_first_failure_witness :
  Buttons keypad !! 1 = Some {| href := "/button/102" |}
  ∧ snd (getButtonsFromGroup (keypad_client true) keypad ([2] ++ 1 :: [0]) []) =
      Rejected (TransportError "request failed").
Proof.
  split; [reflexivity|].
  apply (getButtonsFromGroup_first_failure (keypad_client true) keypad [2] [0] 1
           {| href := "/button/102" |} (TransportError "request failed") []
           eq_refl eq_refl).
  repeat constructor. intros ref' e' [= <-]. discriminate.
Defined.

(** X18: a group without buttons gives the empty list at once:
    no request is sent and nothing is waited for. *)
Theorem getButtonsFromGroup_empty_group (client : LeapClient) (bgroup : ButtonGroup)
    (order : list nat) (log : list Request) :
  Buttons bgroup = [] →
  getButtonsFromGroup client bgroup order log = (log, Fulfilled []).
Proof.
  intros Hb. unfold getButtonsFromGroup, mbind, Async_bind.
  rewrite Hb. cbn. unfold await, Promise_all. by rewrite Promise_all_settled.
Qed.

Lemma getButtonsFromGroup_empty_group_witness :
  getButtonsFromGroup (down (TransportError "socket closed"))
    {| buttongroup_href := "/buttongroup/9"; Buttons := [] |} [0; 1] [] = ([], Fulfilled []).
Proof.
  apply (getButtonsFromGroup_empty_group (down (TransportError "socket closed"))
           {| buttongroup_href := "/buttongroup/9"; Buttons := [] |} [0; 1] [] eq_refl).
Defined.

(** The buttons of a group whose requests are all answered by a button. *)
Lemma getButtonsFromGroup_resolved client bgroup buttons order log :
  Forall2 (resolves_to client) (Buttons bgroup) buttons →
  (∀ i, i < length (Buttons bgroup) → i ∈ order) →
  getButtonsFromGroup client bgroup order log =
    (log ++ (read ∘ href <$> Buttons bgroup), Fulfilled buttons).
Proof.
  intros Hall Hcover.
  unfold getButtonsFromGroup, mbind, Async_bind.
  rewrite push_button_requests_spec. cbn. unfold await. f_equal.
  assert (Hps : button_promise client <$> Buttons bgroup = Fulfilled <$> buttons).
  { clear -Hall. induction Hall as [|ref button refs buttons Hres _ IH]; [done|].
    cbn. by rewrite IH, (button_promise_resolves _ _ _ Hres). }
  rewrite Hps. apply Promise_all_ordered.
  intros i Hi. apply Hcover. by rewrite (Forall2_length _ _ _ Hall).
Qed.

(** X19: the two button operations compose: reading the button group of a
    device and then its buttons sends the read of the first button-group
    reference of the device followed by one read per button reference of the
    group that came back, and returns the buttons in the order of that
    group. *)
Theorem buttons_of_device_in_order (client : LeapClient) (device : Device)
    (group : Href) (groups : list Href) (body : BodyType) (bgroup : ButtonGroup)
    (buttons : list Button) (order : list nat) (log : list Request) :
  ButtonGroups device = group :: groups →
  request client (read (href group)) = Fulfilled {| Body := Some body |} →
  body_ButtonGroup body = Some bgroup →
  Forall2 (resolves_to client) (Buttons bgroup) buttons →
  (∀ i, i < length (Buttons bgroup) → i ∈ order) →
  buttons_of_device client device order log =
    (log ++ read (href group) :: (read ∘ href <$> Buttons bgroup), Fulfilled buttons).
Proof.
  intros Hg Hreq Hbody Hall Hcover.
  unfold buttons_of_device.
  unfold mbind at 1. unfold Async_bind.
  assert (E : getButtonGroupFromDevice client device log =
              (log ++ [read (href group)], Fulfilled bgroup)).
  { unfold getButtonGroupFromDevice. rewrite Hg. run_async.
    fold (read (href group)). rewrite Hreq. cbn. by rewrite Hbody. }
  rewrite E, (getButtonsFromGroup_resolved _ _ _ _ _ Hall Hcover).
  by rewrite <- app_assoc.
Qed.

Lemma buttons_of_device_in_order_witness :
  ButtonGroups pico_remote = [ {| href := "/buttongroup/2" |} ]
  ∧ buttons_of_device pico_client pico_remote [1; 2; 0] [] =
    ([read "/buttongroup/2"; read "/button/101"; read "/button/102"; read "/button/103"],
     Fulfilled [button_101; button_102; button_103]).
Proof.
  split; [reflexivity|].
  apply (buttons_of_device_in_order pico_client pico_remote
           {| href := "/buttongroup/2" |} [] (OneButtonGroupDefinition keypad) keypad
           [button_101; button_102; button_103] [1; 2; 0] []);
    try reflexivity.
  - repeat constructor.
    + by exists (OneButtonDefinition button_101).
    + by exists (OneButtonDefinition button_102).
    + by exists (OneButtonDefinition button_103).
  - intros [|[|[|i]]] Hi; cbn in Hi; [| | |lia]; repeat constructor.
Defined.

Lemma Math_round_integer (n : Z) :
  Math_round (Finite (inject_Z n)) = Finite (inject_Z n).
Proof.
  destruct (Math_round_nearest (inject_Z n)) as (m & -> & Hm).
  assert (Hn : nearest_integer (inject_Z n) n) by (unfold nearest_integer; split; lra).
  by rewrite (nearest_integer_unique _ _ _ Hm Hn).
Qed.

(** X20: a tilt that is an integer already is written as it is, and a
    tilt half-way between two integers is written as the upper one. *)
Theorem setBlindsTilt_integer_and_tie (client : LeapClient) (device : Device)
    (zone : Href) (zones : list Href) (n : Z) (log : list Request) :
  LocalZones device = zone :: zones →
  setBlindsTilt client device (Finite (inject_Z n)) log =
    (log ++ [{| req_type := CreateRequest;
                req_url := href zone +:+ "/commandprocessor";
                req_body := Some {| Command := {| CommandType := "GoToTilt";
                                                  TiltParameters := {| tp_Tilt := Finite (inject_Z n) |} |} |} |}],
     Fulfilled ())
  ∧ setBlindsTilt client device (Finite (inject_Z n + (1 # 2))%Q) log =
    (log ++ [{| req_type := CreateRequest;
                req_url := href zone +:+ "/commandprocessor";
                req_body := Some {| Command := {| CommandType := "GoToTilt";
                                                  TiltParameters := {| tp_Tilt := Finite (inject_Z (n + 1)) |} |} |} |}],
     Fulfilled ()).
Proof.
  intros Hz.
  assert (Htie : Math_round (Finite (inject_Z n + (1 # 2))%Q) = Finite (inject_Z (n + 1))).
  { destruct (Math_round_nearest (inject_Z n + (1 # 2))%Q) as (m & -> & Hm).
    assert (Hn : nearest_integer (inject_Z n + (1 # 2))%Q (n + 1)).
    { unfold nearest_integer. rewrite inject_Z_plus.
      change (inject_Z 1) with 1%Q. split; lra. }
    by rewrite (nearest_integer_unique _ _ _ Hm Hn). }
  unfold setBlindsTilt, mbind, Async_bind, client_request, await.
  rewrite Hz, Math_round_integer, Htie. split; reflexivity.
Qed.

Lemma setBlindsTilt_integer_and_tie_witness :
  LocalZones living_room_shade = [ {| href := "/zone/1" |} ]
  ∧ setBlindsTilt (always some_response) living_room_shade (Finite (-5 # 2)) [] =
    ([{| req_type := CreateRequest;
         req_url := "/zone/1/commandprocessor";
         req_body := Some {| Command := {| CommandType := "GoToTilt";
                                           TiltParameters := {| tp_Tilt := Finite (-2 # 1) |} |} |} |}],
     Fulfilled ()).
Proof.
  split; [reflexivity|].
  exact (proj2 (setBlindsTilt_integer_and_tie (always some_response) living_room_shade
                  {| href := "/zone/1" |} [] (-3) [] eq_refl)).
Defined.

(** X21: the reading operations hand over what the transport sent: the
    devices of the answer in their order (an empty list is a list, not a bad
    shape), the tilt of the first zone as received, without rounding, and the
    button group of the first button-group reference. *)
Theorem validated_reads_return_payload (client : LeapClient) (device : Device)
    (body : BodyType) (log : list Request) :
  (∀ devices,
     request client (read "/device") = Fulfilled {| Body := Some body |} →
     body_Devices body = Some devices →
     getDeviceInfo client log = (log ++ [read "/device"], Fulfilled devices))
  ∧ (∀ zone zones status,
     LocalZones device = zone :: zones →
     request client (read (href zone +:+ "/status")) = Fulfilled {| Body := Some body |} →
     body_ZoneStatus body = Some status →
     readBlindsTilt client device log =
       (log ++ [read (href zone +:+ "/status")], Fulfilled (Tilt status)))
  ∧ (∀ group groups bgroup,
     ButtonGroups device = group :: groups →
     request client (read (href group)) = Fulfilled {| Body := Some body |} →
     body_ButtonGroup body = Some bgroup →
     getButtonGroupFromDevice client device log =
       (log ++ [read (href group)], Fulfilled bgroup)).
Proof.
  repeat split.
  - intros devices Hreq Hbody. unfold getDeviceInfo. run_async.
    fold (read "/device"). rewrite Hreq. cbn. by rewrite Hbody.
  - intros zone zones status. apply readBlindsTilt_value.
  - intros group groups bgroup Hg Hreq Hbody.
    unfold getButtonGroupFromDevice. rewrite Hg. run_async.
    fold (read (href group)). rewrite Hreq. cbn. by rewrite Hbody.
Qed.

Lemma validated_reads_return_payload_witness :
  getDeviceInfo (always {| Body := Some (MultipleDeviceDefinition []) |}) [] =
    ([read "/device"], Fulfilled [])
  ∧ readBlindsTilt
      (always {| Body := Some (OneZoneStatus {| Tilt := Finite (95 # 2) |}) |})
      living_room_shade [] =
    ([read "/zone/1/status"], Fulfilled (Finite (95 # 2))).
Proof.
  split.
  - exact (proj1 (validated_reads_return_payload
                    (always {| Body := Some (MultipleDeviceDefinition []) |})
                    living_room_shade (MultipleDeviceDefinition []) [])
             [] eq_refl eq_refl).
  - exact (proj1 (proj2 (validated_reads_return_payload
                    (always {| Body := Some (OneZoneStatus {| Tilt := Finite (95 # 2) |}) |})
                    living_room_shade (OneZoneStatus {| Tilt := Finite (95 # 2) |}) []))
             {| href := "/zone/1" |} [] {| Tilt := Finite (95 # 2) |}
             eq_refl eq_refl eq_refl).
Defined.

(** * The ping loop and the unsolicited messages *)

(** On a wired client every event is one call of a method. *)
Lemma step_wired b ev :
  wired b →
  step b ev = match ev with
              | ClientUnsolicited response => _handleUnsolicited response b
              | ClientDisconnected => _handleDisconnect b
              | _ => step b ev
              end.
Proof.
  intros Hw. destruct ev; try done.
  - by apply step_unsolicited_wired.
  - by apply step_disconnected_wired.
Qed.

Lemma same_monitor_step b1 b2 ev :
  wired b1 → wired b2 →
  same_monitor b1 b2 → same_monitor (step b1 ev) (step b2 ev).
Proof.
  intros Hw1 Hw2. rewrite (step_wired b1 ev Hw1), (step_wired b2 ev Hw2). clear Hw1 Hw2.
  destruct b1 as [id1 pl1 tm1 nh1 rc1 ef1], b2 as [id2 pl2 tm2 nh2 rc2 ef2].
  intros [Hp Ht Hn Hr Hc]. unfold client_calls in *. cbn in *. subst pl2 tm2 nh2 rc2.
  destruct ev as [h|r resp|r e|resp| |]; cbn.
  - destruct (tm1 !! h) as [[d [|r]]|]; cbn.
    + split; unfold client_calls; cbn; rewrite ?List.filter_app; cbn; congruence.
    + unfold settle_race; cbn.
      destruct (rc1 !! r) as [[[|] pd]|]; cbn;
        split; unfold client_calls; cbn; rewrite ?List.filter_app; cbn; congruence.
    + split; unfold client_calls; cbn; congruence.
  - unfold ping_completes; cbn.
    destruct (rc1 !! r) as [[st [|]]|]; cbn;
      [split; unfold client_calls; cbn; congruence| |split; unfold client_calls; cbn; congruence].
    unfold settle_race; cbn. rewrite lookup_insert_eq; cbn.
    destruct st; cbn; split; unfold client_calls; cbn; congruence.
  - unfold ping_completes; cbn.
    destruct (rc1 !! r) as [[st [|]]|]; cbn;
      [split; unfold client_calls; cbn; congruence| |split; unfold client_calls; cbn; congruence].
    unfold settle_race; cbn. rewrite lookup_insert_eq; cbn.
    destruct st; cbn; split; unfold client_calls; cbn;
      rewrite ?List.filter_app; cbn; congruence.
  - split; unfold client_calls; cbn; rewrite ?List.filter_app; cbn;
      rewrite ?app_nil_r; congruence.
  - split; unfold client_calls; cbn; rewrite ?List.filter_app; cbn; congruence.
  - split; unfold client_calls; cbn; rewrite ?List.filter_app; cbn; congruence.
Qed.

Lemma same_monitor_unsolicited b1 b2 response :
  wired b1 →
  same_monitor b1 b2 → same_monitor (step b1 (ClientUnsolicited response)) b2.
Proof.
  intros Hw. rewrite (step_unsolicited_wired _ _ Hw).
  intros [Hp Ht Hn Hr Hc]. split; cbn; try done.
  unfold client_calls in *; cbn. rewrite List.filter_app; cbn. by rewrite app_nil_r.
Qed.

(** X22: unsolicited messages neither feed nor disturb the ping loop:
    with or without the unsolicited messages of an event sequence, a session
    ends with the same timer handle, the same pending timers, the same races
    and the same calls made on its client. *)
Theorem unsolicited_leave_ping_loop_alone (id : string) (evs : list Event) :
  same_monitor (run (new_SmartBridge id) evs)
               (run (new_SmartBridge id) (without_unsolicited evs)).
Proof.
  assert (G : ∀ evs b1 b2, wired b1 → wired b2 → same_monitor b1 b2 →
              same_monitor (run b1 evs) (run b2 (without_unsolicited evs))).
  { clear. induction evs as [|ev evs IH]; intros b1 b2 Hw1 Hw2 Hb; [done|].
    change (run b1 (ev :: evs)) with (run (step b1 ev) evs).
    destruct ev as [h|r resp|r e|resp| |]; cbn [without_unsolicited List.filter
      is_ClientUnsolicited negb];
      try (change (run b2 (?ev :: ?l)) with (run (step b2 ev) l);
           apply IH; [by apply wired_step|by apply wired_step|by apply same_monitor_step]).
    apply IH; [by apply wired_step|done|by apply same_monitor_unsolicited]. }
  apply G; [apply wired_new|apply wired_new|by split].
Qed.
